(** * Business-case-vm: the RabbitMQ -> Salesforce reconciliation consumer

    Shallow embedding of [src/src/rabbitmq/consumer.ts] (the consumer with
    the guarded stock decrement) and of the variant in [src/unnamed/part_004]
    that also upserts order lines.

    - The Salesforce REST API is a store [St] of custom-object records
      (CustomerCustom__c, OrderCustom__c, OrderLineCustom__c,
      ProductCustom__c).  Every HTTP call takes its response from a schedule
      [sched]: [RespOk] when the schedule is empty, otherwise the head of it,
      so that HTTP failures, network errors, a create response without an id
      and a query that does not (yet) see a record can all be exercised.
    - A JavaScript [Error] object is the record [jserr]: its [message], the
      flags [isHerhaalbaar] and [statusCode] set by [retryableError] and
      [permanentError], and the [response.status] axios puts on an HTTP error.
    - Async code is the state-and-error monad [M]: [await] is [bind],
      [throw] is [throw], [try/catch] is [try_catch].
    - Numbers ([amount], [quantity], [Stock__c]) are integers [Z]. *)

From Stdlib Require Import ZArith String List Bool Lia.
Import ListNotations.
Open Scope string_scope.
Open Scope Z_scope.

(** ** Errors *)

Record jserr := mkErr {
  message : string;
  isHerhaalbaar : option bool;
  statusCode : option Z;
  response_status : option Z
}.

(** [new Error(message)]: no classification flag. *)
Definition plainError (msg : string) : jserr := mkErr msg None None None.

(** [retryableError(message, statusCode = 500)] *)
Definition retryableError (msg : string) (code : Z) : jserr :=
  mkErr msg (Some true) (Some code) None.

(** [permanentError(message, statusCode = 400)] *)
Definition permanentError (msg : string) (code : Z) : jserr :=
  mkErr msg (Some false) (Some code) None.

(** ** HTTP responses and requests *)

Inductive resp :=
| RespOk                (* 2xx *)
| RespNoId              (* 2xx, but a create response without [data.id] *)
| RespStale             (* 2xx, but a query whose [records] is empty *)
| RespHttp (s : Z)      (* axios error with [response.status = s] *)
| RespNet.              (* axios error without [response] (network, timeout) *)

(** The error axios rejects with; its [message] also stands for
    [response.data], which the helpers put in their own error message. *)
Definition axiosError (r : resp) : jserr :=
  match r with
  | RespHttp s => mkErr "Request failed with status code" None None (Some s)
  | _ => mkErr "Network Error" None None None
  end.

Inductive request :=
| ReqToken
| ReqCustomerUpsert (externalId : string)
| ReqCustomerQuery (externalId : string)
| ReqOrderQuery (name : string)
| ReqOrderPatch (id : string)
| ReqOrderPost (name : string)
| ReqLineQuery (name : string)
| ReqLinePatch (id : string)
| ReqLinePost (name : string)
| ReqProductQuery (externalProductId : string)
| ReqProductPatch (id : string) (stock : Z).

(** ** The Salesforce store *)

Record customer_rec := mkCustomerRec {
  cust_Id : string; cust_ExternalId : string; cust_Name : string;
  cust_Email : string; cust_Phone : option string
}.

Record order_rec := mkOrderRec {
  ord_Id : string; ord_Name : string; ord_Total : Z;
  ord_Status : string; ord_Customer : string
}.

Record line_rec := mkLineRec {
  line_Id : string; line_Name : string; line_Order : string;
  line_ExternalProductId : string; line_Quantity : Z; line_Price : Z
}.

Record product_rec := mkProductRec {
  prod_Id : string; prod_ExternalProductId : string; prod_Stock : Z
}.

Record St := mkSt {
  env_instance : bool;        (* SALESFORCE_INSTANCE_URL is set *)
  token_valid : bool;         (* the refresh service has a cached token *)
  sched : list resp;
  next_id : nat;
  customers : list customer_rec;
  orders : list order_rec;
  lines : list line_rec;
  products : list product_rec;
  reqs : list request         (* requests sent, oldest first *)
}.

Definition with_sched (s : list resp) (st : St) : St :=
  mkSt (env_instance st) (token_valid st) s (next_id st) (customers st)
       (orders st) (lines st) (products st) (reqs st).
Definition with_token (st : St) : St :=
  mkSt (env_instance st) true (sched st) (next_id st) (customers st)
       (orders st) (lines st) (products st) (reqs st).
Definition with_req (r : request) (st : St) : St :=
  mkSt (env_instance st) (token_valid st) (sched st) (next_id st) (customers st)
       (orders st) (lines st) (products st) (reqs st ++ [r]).
Definition with_customers (cs : list customer_rec) (st : St) : St :=
  mkSt (env_instance st) (token_valid st) (sched st) (next_id st) cs
       (orders st) (lines st) (products st) (reqs st).
Definition with_orders (os : list order_rec) (st : St) : St :=
  mkSt (env_instance st) (token_valid st) (sched st) (next_id st) (customers st)
       os (lines st) (products st) (reqs st).
Definition with_lines (ls : list line_rec) (st : St) : St :=
  mkSt (env_instance st) (token_valid st) (sched st) (next_id st) (customers st)
       (orders st) ls (products st) (reqs st).
Definition with_products (ps : list product_rec) (st : St) : St :=
  mkSt (env_instance st) (token_valid st) (sched st) (next_id st) (customers st)
       (orders st) (lines st) ps (reqs st).

(** Salesforce assigns a fresh record Id. *)
Fixpoint digits_of (fuel : nat) (n : nat) (acc : string) : string :=
  match fuel with
  | O => acc
  | S f =>
      let d := String (Ascii.ascii_of_nat (48 + Nat.modulo n 10)) acc in
      if Nat.ltb n 10 then d else digits_of f (Nat.div n 10) d
  end.

Definition sf_id (n : nat) : string := "a0" ++ digits_of 20 n "".
Arguments sf_id : simpl never.

Definition fresh_id (st : St) : string * St :=
  (sf_id (next_id st),
   mkSt (env_instance st) (token_valid st) (sched st) (S (next_id st))
        (customers st) (orders st) (lines st) (products st) (reqs st)).

(** ** The state-and-error monad *)

Inductive result (A : Type) := Ok (a : A) | Err (e : jserr).
Arguments Ok {A} a.
Arguments Err {A} e.

Definition M (A : Type) := St -> result A * St.

Definition ret {A} (a : A) : M A := fun st => (Ok a, st).
Definition throw {A} (e : jserr) : M A := fun st => (Err e, st).
Definition bind {A B} (m : M A) (k : A -> M B) : M B :=
  fun st => match m st with
            | (Ok a, st') => k a st'
            | (Err e, st') => (Err e, st')
            end.
Definition try_catch {A} (m : M A) (h : jserr -> M A) : M A :=
  fun st => match m st with
            | (Ok a, st') => (Ok a, st')
            | (Err e, st') => h e st'
            end.

Notation "x <- m ;; k" := (bind m (fun x => k))
  (at level 61, m at next level, right associativity).
Notation "m ;;; k" := (bind m (fun _ => k))
  (at level 61, right associativity).

(** [for (const x of l) await f(x)] *)
Fixpoint for_each {A} (f : A -> M unit) (l : list A) : M unit :=
  match l with
  | [] => ret tt
  | x :: r => f x ;;; for_each f r
  end.

(** One HTTP call: take the next response, log the request; on a 2xx run
    the effect [k] on the store, otherwise reject with the axios error. *)
Definition http {A} (rq : request) (k : resp -> St -> A * St) : M A :=
  fun st =>
    let r := match sched st with [] => RespOk | r :: _ => r end in
    let st1 := with_req rq (with_sched (tl (sched st)) st) in
    match r with
    | RespHttp _ | RespNet => (Err (axiosError r), st1)
    | _ => let (a, st2) := k r st1 in (Ok a, st2)
    end.

(** ** Message payloads ([src/src/types/message.ts]) *)

Record Customer := mkCustomer {
  c_id : string; c_name : string; c_email : string; c_phone : option string;
  c_address : option string; c_city : option string; c_postalCode : option string
}.

Record OrderItem := mkItem {
  productId : string; quantity : Z; price : Z; totalPrice : Z
}.

Record Order := mkOrder {
  o_id : string; o_customerId : string; o_amount : Z; o_currency : string;
  o_items : list OrderItem
}.

Record Payload := mkPayload {
  customer : option Customer; order : option Order
}.

Record Msg := mkMsg {
  messageId : string; event : string; payload : Payload;
  timestamp : string; retryCount : option Z
}.

Definition CREATE_ORDER := "CREATE_ORDER".
Definition UPDATE_ORDER := "UPDATE_ORDER".
Definition CREATE_CUSTOMER := "CREATE_CUSTOMER".
Definition UPDATE_CUSTOMER := "UPDATE_CUSTOMER".

(** ** Record lookups and writes of the store *)

Definition find_customer (ext : string) (cs : list customer_rec) :=
  find (fun c => String.eqb (cust_ExternalId c) ext) cs.
Definition find_order (name : string) (os : list order_rec) :=
  find (fun o => String.eqb (ord_Name o) name) os.
Definition find_line (name : string) (ls : list line_rec) :=
  find (fun l => String.eqb (line_Name l) name) ls.
Definition find_product (ext : string) (ps : list product_rec) :=
  find (fun p => String.eqb (prod_ExternalProductId p) ext) ps.

(** PATCH .../CustomerCustom__c/ExternalId__c/{externalId}: Salesforce's
    upsert on an external-id field updates the record or creates it. *)
Definition customer_upsert_eff (c : Customer) (st : St) : St :=
  match find_customer (c_id c) (customers st) with
  | Some _ =>
      with_customers
        (map (fun r => if String.eqb (cust_ExternalId r) (c_id c)
                       then mkCustomerRec (cust_Id r) (c_id c) (c_name c)
                                          (c_email c) (c_phone c)
                       else r) (customers st)) st
  | None =>
      let (id, st1) := fresh_id st in
      with_customers (customers st1 ++
                      [mkCustomerRec id (c_id c) (c_name c) (c_email c) (c_phone c)]) st1
  end.

Definition order_patch_eff (id : string) (total : Z) (status cust : string)
  (st : St) : St :=
  with_orders
    (map (fun o => if String.eqb (ord_Id o) id
                   then mkOrderRec (ord_Id o) (ord_Name o) total status cust
                   else o) (orders st)) st.

Definition line_patch_eff (id order ext : string) (qty pr : Z) (st : St) : St :=
  with_lines
    (map (fun l => if String.eqb (line_Id l) id
                   then mkLineRec (line_Id l) (line_Name l) order ext qty pr
                   else l) (lines st)) st.

Definition product_patch_eff (id : string) (stock : Z) (st : St) : St :=
  with_products
    (map (fun p => if String.eqb (prod_Id p) id
                   then mkProductRec (prod_Id p) (prod_ExternalProductId p) stock
                   else p) (products st)) st.

(** A query sees the store, unless the response is [RespStale]. *)
Definition seen {A} (r : resp) (x : option A) : option A :=
  match r with RespStale => None | _ => x end.

(** ** [SalesforceRefreshService] and the consumer's helpers *)

(** [authenticate()]: reuses the cached token, otherwise POSTs to the token
    endpoint with the global axios instance (errors are not classified). *)
Definition authenticate : M unit :=
  fun st =>
    if token_valid st then (Ok tt, st)
    else if negb (env_instance st)
    then (Err (plainError "Missing env var: SALESFORCE_INSTANCE_URL"), st)
    else http ReqToken (fun _ st => (tt, with_token st)) st.

(** [sfInstance()] *)
Definition sfInstance : M unit :=
  fun st =>
    if env_instance st then (Ok tt, st)
    else (Err (plainError "Missing env var: SALESFORCE_INSTANCE_URL"), st).

(** [JSON.stringify] of a string without quotes or backslashes. *)
Definition dquote : Ascii.ascii := Ascii.ascii_of_nat 34.
Definition json_str (s : string) : string := String dquote (s ++ String dquote EmptyString).

(** The [catch (e)] block shared by all helpers:
    [status && status >= 400 && status < 500] is permanent, anything else is
    retryable with [status ?? 500]. *)
Definition sf_catch {A} (ctx : string) (e : jserr) : M A :=
  let data := json_str (message e) in
  match response_status e with
  | Some s =>
      if negb (s =? 0) && (400 <=? s) && (s <? 500)
      then throw (permanentError ("Salesforce 4xx bij " ++ ctx ++ ": " ++ data) s)
      else throw (retryableError ("Salesforce error bij " ++ ctx ++ ": " ++ data) s)
  | None => throw (retryableError ("Salesforce error bij " ++ ctx ++ ": " ++ data) 500)
  end.

(** [upsertCustomerAndGetId] *)
Definition upsertCustomerAndGetId (c : Customer) : M string :=
  authenticate ;;;
  sfInstance ;;;
  try_catch
    (http (ReqCustomerUpsert (c_id c)) (fun _ st => (tt, customer_upsert_eff c st)) ;;;
     qr <- http (ReqCustomerQuery (c_id c))
                (fun r st => (seen r (find_customer (c_id c) (customers st)), st)) ;;
     match qr with
     | None => throw (retryableError "Customer not found after upsert" 500)
     | Some rec => ret (cust_Id rec)
     end)
    (sf_catch "customer upsert").

(** [upsertOrder]: query by Name, PATCH when found, POST otherwise, and
    query again when the create response carries no id. *)
Definition query_order (name : string) : M (option order_rec) :=
  http (ReqOrderQuery name) (fun r st => (seen r (find_order name (orders st)), st)).

Definition upsertOrder (externalOrderId : string) (total : Z) (status : string)
  (customerSfId : string) : M (string * bool) :=
  authenticate ;;;
  sfInstance ;;;
  try_catch
    (existing <- query_order externalOrderId ;;
     match existing with
     | Some rec =>
         http (ReqOrderPatch (ord_Id rec))
              (fun _ st => (tt, order_patch_eff (ord_Id rec) total status customerSfId st)) ;;;
         ret (ord_Id rec, false)
     | None =>
         newId <- http (ReqOrderPost externalOrderId)
                   (fun r st =>
                      let (id, st1) := fresh_id st in
                      (match r with RespNoId => None | _ => Some id end,
                       with_orders (orders st1 ++
                         [mkOrderRec id externalOrderId total status customerSfId]) st1)) ;;
         match newId with
         | Some id => ret (id, true)
         | None =>
             rec2 <- query_order externalOrderId ;;
             match rec2 with
             | None => throw (retryableError "Order not found after create" 500)
             | Some r2 => ret (ord_Id r2, true)
             end
         end
     end)
    (sf_catch "order create/check").

(** [if (!externalProductId || !qty || qty <= 0)] *)
Definition invalid_item (it : OrderItem) : bool :=
  String.eqb (productId it) "" || (quantity it <=? 0).

(** [findProductByExternalProductId] *)
Definition findProductByExternalProductId (ext : string) : M (string * Z) :=
  authenticate ;;;
  sfInstance ;;;
  try_catch
    (rec <- http (ReqProductQuery ext)
                 (fun r st => (seen r (find_product ext (products st)), st)) ;;
     match rec with
     | None => throw (permanentError ("Product niet gevonden in Salesforce: " ++ ext) 404)
     | Some p => ret (prod_Id p, prod_Stock p)
     end)
    (sf_catch "product query").

(** [setProductStockById] *)
Definition setProductStockById (id : string) (newStock : Z) : M unit :=
  authenticate ;;;
  sfInstance ;;;
  try_catch
    (http (ReqProductPatch id newStock) (fun _ st => (tt, product_patch_eff id newStock st)))
    (sf_catch "product stock update").

(** One iteration of the loop of [decrementStockForOrderItems]. *)
Definition decrement_item (orderExternalId : string) (it : OrderItem) : M unit :=
  if invalid_item it
  then throw (permanentError "Ongeldig order item (productId/quantity)" 400)
  else
    p <- findProductByExternalProductId (productId it) ;;
    let (pid, currentStock) := p in
    let newStock := currentStock - quantity it in
    if newStock <? 0
    then throw (permanentError ("Niet genoeg stock voor " ++ productId it ++
                                " (order " ++ orderExternalId ++ ")") 409)
    else setProductStockById pid newStock.

(** [decrementStockForOrderItems] *)
Definition decrementStockForOrderItems (items : list OrderItem)
  (orderExternalId : string) : M unit :=
  match items with
  | [] => ret tt
  | _ => for_each (decrement_item orderExternalId) items
  end.

(** [upsertOrderLines] of the consumer in [src/unnamed/part_004]: one line
    per item, named [`${orderExternalId}:${externalProductId}`], queried by
    Name, PATCHed when found and POSTed otherwise. *)
Definition lineKey (orderExternalId : string) (it : OrderItem) : string :=
  orderExternalId ++ ":" ++ productId it.

Definition upsert_line (orderSfId orderExternalId : string) (it : OrderItem) : M unit :=
  if invalid_item it
  then throw (permanentError "Ongeldig order item (productId/quantity)" 400)
  else
    let key := lineKey orderExternalId it in
    let ext := productId it in
    try_catch
      (existing <- http (ReqLineQuery key)
                     (fun r st => (seen r (find_line key (lines st)), st)) ;;
       match existing with
       | Some rec =>
           http (ReqLinePatch (line_Id rec))
                (fun _ st => (tt, line_patch_eff (line_Id rec) orderSfId ext
                                                 (quantity it) (price it) st))
       | None =>
           _ <- http (ReqLinePost key)
                  (fun r st =>
                     let (id, st1) := fresh_id st in
                     (match r with RespNoId => None | _ => Some id end,
                      with_lines (lines st1 ++
                        [mkLineRec id key orderSfId ext (quantity it) (price it)]) st1)) ;;
           ret tt
       end)
      (sf_catch "order line upsert").

Definition upsertOrderLines (orderSfId orderExternalId : string)
  (items : list OrderItem) : M unit :=
  match items with
  | [] => ret tt
  | _ => authenticate ;;; sfInstance ;;;
         for_each (upsert_line orderSfId orderExternalId) items
  end.

Definition is_order_event (ev : string) : bool :=
  String.eqb ev CREATE_ORDER || String.eqb ev UPDATE_ORDER.
Definition is_customer_event (ev : string) : bool :=
  String.eqb ev CREATE_CUSTOMER || String.eqb ev UPDATE_CUSTOMER.

(** [handleMessage] of [src/src/rabbitmq/consumer.ts]; [with_lines_step]
    selects the variant of [src/unnamed/part_004], which calls
    [upsertOrderLines] between the order upsert and the stock decrement. *)
Definition handle_with (with_lines_step : bool) (m : Msg) : M unit :=
  let ev := event m in
  let p := payload m in
  if is_order_event ev then
    match order p with
    | None => throw (permanentError "payload.order ontbreekt" 400)
    | Some o =>
      match customer p with
      | None => throw (permanentError "payload.customer ontbreekt (nodig voor upsert)" 400)
      | Some c =>
          customerSfId <- upsertCustomerAndGetId c ;;
          r <- upsertOrder (o_id o) (o_amount o) "NEW" customerSfId ;;
          let (orderSfId, createdNew) := r in
          (if with_lines_step then upsertOrderLines orderSfId (o_id o) (o_items o)
           else ret tt) ;;;
          if createdNew
          then decrementStockForOrderItems (o_items o) (o_id o)
          else ret tt
      end
    end
  else if is_customer_event ev then
    match customer p with
    | None => throw (permanentError "payload.customer ontbreekt" 400)
    | Some c => upsertCustomerAndGetId c ;;; ret tt
    end
  else throw (permanentError ("Onbekend event type: " ++ ev) 400).

Definition handleMessage : Msg -> M unit := handle_with false.
Definition handleMessage_lines : Msg -> M unit := handle_with true.

(** ** Idempotency ledger *)

Inductive status := success | failed.

Record ProcessedMessage := mkProcessed {
  pm_messageId : string; pm_status : status; pm_error : option string
}.

(** Modelled from the spec: [utils/idempotency] ([isMessageProcessed],
    [markMessageProcessed]) is not among the sources.  Spec 4.5: the ledger
    is append-only; [isProcessed] asks whether the id has a record, and a
    second [markProcessed] for the same id is a no-op, never an overwrite. *)
Definition isMessageProcessed (id : string) (l : list ProcessedMessage) : bool :=
  existsb (fun r => String.eqb (pm_messageId r) id) l.

Definition markMessageProcessed (id : string) (s : status) (err : option string)
  (l : list ProcessedMessage) : list ProcessedMessage :=
  if isMessageProcessed id l then l else l ++ [mkProcessed id s err].

(** ** JSON objects sent to the dead-letter queue *)

Inductive jval := JStr (s : string) | JNum (n : Z) | JPayload (p : Payload).

Definition obj := list (string * jval).

(** The own keys of a parsed [RabbitMQMessage]; [retryCount] only when the
    message has one. *)
Definition msg_to_obj (m : Msg) : obj :=
  ([("messageId", JStr (messageId m)); ("event", JStr (event m));
   ("payload", JPayload (payload m)); ("timestamp", JStr (timestamp m))] ++
  (match retryCount m with Some n => [("retryCount", JNum n)] | None => [] end))%list.

(** A property in an object literal after a spread: overwrites the key in
    place when the spread copied it, appends it otherwise. *)
Definition obj_set (k : string) (v : jval) (o : obj) : obj :=
  if existsb (fun kv => String.eqb (fst kv) k) o
  then map (fun kv => if String.eqb (fst kv) k then (k, v) else kv) o
  else (o ++ [(k, v)])%list.

Fixpoint obj_get (k : string) (o : obj) : option jval :=
  match o with
  | [] => None
  | (k', v) :: r => if String.eqb k' k then Some v else obj_get k r
  end.

(** [{ ...message, dlqReason: error, dlqTimestamp: new Date().toISOString() }] *)
Definition dlqMessage (m : Msg) (reason now : string) : obj :=
  obj_set "dlqTimestamp" (JStr now) (obj_set "dlqReason" (JStr reason) (msg_to_obj m)).

(** ** The reconciliation loop ([processMessage]) *)

Inductive action :=
| AAck                       (* channel.ack(msg) *)
| ANack (requeue : bool)     (* channel.nack(msg, false, requeue) *)
| ASendQueue (m : Msg)       (* sendToQueue(config.rabbitmq.queue, ...) *)
| ASendDLQ (o : obj).        (* sendToQueue(config.rabbitmq.dlq, ...) *)

(** A delivery is the parsed message, [None] when [JSON.parse] throws. *)
Definition delivery := option Msg.

Record Loop := mkLoop {
  queue : list delivery;
  dlq : list obj;
  ledger : list ProcessedMessage;
  acts : list action;
  store : St;
  clock : string             (* new Date().toISOString() *)
}.

Definition set_retryCount (m : Msg) (n : Z) : Msg :=
  mkMsg (messageId m) (event m) (payload m) (timestamp m) (Some n).

Definition with_queue (q : list delivery) (ls : Loop) : Loop :=
  mkLoop q (dlq ls) (ledger ls) (acts ls) (store ls) (clock ls).

Definition log_act (a : action) (ls : Loop) : Loop :=
  mkLoop (queue ls) (dlq ls) (ledger ls) (acts ls ++ [a]) (store ls) (clock ls).

(** [error?.isHerhaalbaar !== undefined ? error.isHerhaalbaar : true] *)
Definition herhaalbaar (e : jserr) : bool :=
  match isHerhaalbaar e with Some b => b | None => true end.

(** [error?.message || "Unknown error"] *)
Definition dlqReason (e : jserr) : string :=
  if String.eqb (message e) "" then "Unknown error" else message e.

Section ReconciliationLoop.

Variable maxRetries : Z.
Variable handle : Msg -> M unit.

Definition processMessage (ls : Loop) (d : delivery) : Loop :=
  match d with
  | None => log_act (ANack false) ls
  | Some m =>
    let id := messageId m in
    if isMessageProcessed id (ledger ls) then log_act AAck ls
    else
      match handle m (store ls) with
      | (Ok _, st') =>
          mkLoop (queue ls) (dlq ls) (markMessageProcessed id success None (ledger ls))
                 (acts ls ++ [AAck]) st' (clock ls)
      | (Err e, st') =>
          let isH := herhaalbaar e in
          let rc := match retryCount m with Some n => n | None => 0 end + 1 in
          if isH && (rc <? maxRetries) then
            let m' := set_retryCount m rc in
            mkLoop (queue ls ++ [Some m']) (dlq ls) (ledger ls)
                   (acts ls ++ [ASendQueue m'; AAck]) st' (clock ls)
          else if negb isH then
            mkLoop (queue ls) (dlq ls)
                   (markMessageProcessed id failed (Some (message e)) (ledger ls))
                   (acts ls ++ [ANack false]) st' (clock ls)
          else
            let o := dlqMessage m (dlqReason e) (clock ls) in
            mkLoop (queue ls) (dlq ls ++ [o])
                   (markMessageProcessed id failed (Some (message e)) (ledger ls))
                   (acts ls ++ [ASendDLQ o; AAck]) st' (clock ls)
      end
  end.

(** The broker delivers the head of the queue (prefetch 1). *)
Definition step (ls : Loop) : option Loop :=
  match queue ls with
  | [] => None
  | d :: r => Some (processMessage (with_queue r ls) d)
  end.

Fixpoint run (n : nat) (ls : Loop) : Loop :=
  match n with
  | O => ls
  | S k => match step ls with None => ls | Some ls' => run k ls' end
  end.

End ReconciliationLoop.

(** [config.rabbitmq.maxRetries] *)
Definition maxRetries : Z := 3.

Definition consumer_step : Loop -> delivery -> Loop :=
  processMessage maxRetries handleMessage.

(** ** Sample inputs *)

Definition sample_customer : Customer :=
  mkCustomer "CUST-1" "Ann" "ann@example.com" None None None None.

Definition sample_order (id : string) (items : list OrderItem) : Order :=
  mkOrder id "CUST-1" 30 "EUR" items.

Definition order_msg (mid oid : string) (items : list OrderItem) : Msg :=
  mkMsg mid CREATE_ORDER
        (mkPayload (Some sample_customer) (Some (sample_order oid items)))
        "2026-01-01T00:00:00.000Z" None.

Definition store_P1 (stock : Z) (s : list resp) : St :=
  mkSt true true s 0 [] [] [] [mkProductRec "p1" "P1" stock] [].

Definition loop0 (q : list delivery) (st : St) : Loop :=
  mkLoop q [] [] [] st "2026-01-01T00:00:05.000Z".

Definition stock_of (ext : string) (st : St) : option Z :=
  option_map prod_Stock (find_product ext (products st)).

(** The PATCH of the product stock fails with a network error. *)
Definition patch_fails_store : St :=
  store_P1 10 [RespOk; RespOk; RespOk; RespOk; RespOk; RespNet].

(** A store whose cached token has expired and whose token request is
    answered with HTTP 400. *)
Definition token_400_store : St :=
  mkSt true false [RespHttp 400] 0 [] [] [] [mkProductRec "p1" "P1" 10] [].

(** A customer event. *)
Definition customer_msg : Msg :=
  mkMsg "m5" CREATE_CUSTOMER (mkPayload (Some sample_customer) None)
        "2026-01-01T00:00:00.000Z" None.

(** ** String helpers: [escapeSoql] and the instance URL *)

Definition backslash : Ascii.ascii := Ascii.ascii_of_nat 92.
Definition squote : Ascii.ascii := Ascii.ascii_of_nat 39.
Definition slash : Ascii.ascii := Ascii.ascii_of_nat 47.

(** [s.replace(/c/g, rep)] for a pattern of one character. *)
Fixpoint replace_all (c : Ascii.ascii) (rep : string) (s : string) : string :=
  match s with
  | EmptyString => EmptyString
  | String d r =>
      if Ascii.eqb d c then rep ++ replace_all c rep r else String d (replace_all c rep r)
  end.

(** [escapeSoql]: first every backslash is doubled, then every single
    quote gets a backslash in front. *)
Definition escapeSoql (value : string) : string :=
  replace_all squote (String backslash (String squote EmptyString))
    (replace_all backslash (String backslash (String backslash EmptyString)) value).

(** What [escapeSoql] makes of one character. *)
Definition esc_char (x : Ascii.ascii) : string :=
  if Ascii.eqb x backslash then String backslash (String backslash EmptyString)
  else if Ascii.eqb x squote then String backslash (String squote EmptyString)
  else String x EmptyString.

(** The SOQL lexer on the body of a quoted string literal: a backslash
    escapes the next character (only the escapes of a backslash and of the
    two quotes are read here), an unescaped single quote closes the literal.
    The result is the value and the text after the closing quote. *)
Fixpoint soql_read (s : string) : option (string * string) :=
  match s with
  | EmptyString => None
  | String c r =>
      if Ascii.eqb c backslash then
        match r with
        | String d r' =>
            if Ascii.eqb d backslash || Ascii.eqb d squote || Ascii.eqb d dquote
            then option_map (fun p => (String d (fst p), snd p)) (soql_read r')
            else None
        | EmptyString => None
        end
      else if Ascii.eqb c squote then Some (EmptyString, r)
      else option_map (fun p => (String c (fst p), snd p)) (soql_read r)
  end.

Fixpoint skip_slashes (l : list Ascii.ascii) : list Ascii.ascii :=
  match l with
  | c :: r => if Ascii.eqb c slash then skip_slashes r else l
  | [] => []
  end.

(** [v.replace(/\/+$/, "")]: the run of slashes at the end is removed. *)
Definition rstrip_slashes (v : string) : string :=
  string_of_list_ascii (rev (skip_slashes (rev (list_ascii_of_string v)))).

(** The value [sfInstance()] returns, from [process.env.SALESFORCE_INSTANCE_URL]. *)
Definition sfInstance_url (env : option string) : result string :=
  match env with
  | Some v =>
      if String.eqb v "" then Err (plainError "Missing env var: SALESFORCE_INSTANCE_URL")
      else Ok (rstrip_slashes v)
  | None => Err (plainError "Missing env var: SALESFORCE_INSTANCE_URL")
  end.

(** ** [SalesforceRefreshService] with its token cache and clock
    ([src/src/services/salesforce-refresh.ts]) *)

Module RefreshService.

Record Env := mkEnv {
  SALESFORCE_INSTANCE_URL : option string;
  SALESFORCE_CLIENT_ID : option string;
  SALESFORCE_CLIENT_SECRET : option string;
  SALESFORCE_REFRESH_TOKEN : option string
}.

(** A getter: [const v = process.env.NAME; if (!v) throw new Error(...); return v]. *)
Definition required (name : string) (v : option string) : result string :=
  match v with
  | Some x => if String.eqb x "" then Err (plainError ("Missing env var: " ++ name)) else Ok x
  | None => Err (plainError ("Missing env var: " ++ name))
  end.

(** The [instanceUrl] getter. *)
Definition instanceUrl (env : Env) : result string :=
  match required "SALESFORCE_INSTANCE_URL" (SALESFORCE_INSTANCE_URL env) with
  | Ok v => Ok (rstrip_slashes v)
  | Err e => Err e
  end.

Record TokenCache := mkTokenCache { accessToken : string; expiresAt : Z }.

(** The outcome of [axios.post(tokenUrl, ...)]. *)
Inductive token_resp :=
| TokenOk (access_token : string) (expires_in : option Z)
| TokenFail (r : resp).

Record Service := mkService {
  tokenCache : option TokenCache;
  posted : list string;              (* token URLs posted to, oldest first *)
  baseURL : option string;
  authorization : option string
}.

(** [authenticate()] at time [now = Date.now()], with [res] the answer of
    the token endpoint if it is asked. *)
Definition authenticate (env : Env) (now : Z) (res : token_resp) (s : Service)
  : result unit * Service :=
  let fresh := match tokenCache s with
               | Some c => now <? expiresAt c - 30000
               | None => false
               end in
  if fresh then (Ok tt, s) else
  match instanceUrl env with
  | Err e => (Err e, s)
  | Ok inst =>
    let tokenUrl := inst ++ "/services/oauth2/token" in
    match required "SALESFORCE_CLIENT_ID" (SALESFORCE_CLIENT_ID env) with
    | Err e => (Err e, s)
    | Ok _ =>
    match required "SALESFORCE_CLIENT_SECRET" (SALESFORCE_CLIENT_SECRET env) with
    | Err e => (Err e, s)
    | Ok _ =>
    match required "SALESFORCE_REFRESH_TOKEN" (SALESFORCE_REFRESH_TOKEN env) with
    | Err e => (Err e, s)
    | Ok _ =>
      let s1 := mkService (tokenCache s) (posted s ++ [tokenUrl])%list
                          (baseURL s) (authorization s) in
      match res with
      | TokenFail r => (Err (axiosError r), s1)
      | TokenOk tok ei =>
          let expiresIn := match ei with Some x => x | None => 600 end in
          (Ok tt, mkService (Some (mkTokenCache tok (now + expiresIn * 1000))) (posted s1)
                            (Some (inst ++ "/")) (Some ("Bearer " ++ tok)))
      end
    end
    end
    end
  end.

(** [!v] for an environment variable: unset or empty. *)
Definition env_missing (v : option string) : bool :=
  match v with Some x => String.eqb x "" | None => true end.

(** The first getter [authenticate] calls that throws, in the order of the
    code: [instanceUrl], [clientId], [clientSecret], [refreshToken]. *)
Definition first_missing (env : Env) : option string :=
  if env_missing (SALESFORCE_INSTANCE_URL env) then Some "SALESFORCE_INSTANCE_URL"
  else if env_missing (SALESFORCE_CLIENT_ID env) then Some "SALESFORCE_CLIENT_ID"
  else if env_missing (SALESFORCE_CLIENT_SECRET env) then Some "SALESFORCE_CLIENT_SECRET"
  else if env_missing (SALESFORCE_REFRESH_TOKEN env) then Some "SALESFORCE_REFRESH_TOKEN"
  else None.

(** [`${this.instanceUrl}/services/oauth2/token`] *)
Definition token_url (env : Env) : string :=
  match SALESFORCE_INSTANCE_URL env with
  | Some v => rstrip_slashes v ++ "/services/oauth2/token"
  | None => ""
  end.

(** A service as [new SalesforceRefreshService()] leaves it. *)
Definition fresh_service : Service := mkService None [] None None.

(** A complete environment. *)
Definition sample_env : Env :=
  mkEnv (Some "https://acme.my.salesforce.com/") (Some "client") (Some "secret") (Some "refresh").

End RefreshService.

(** ** Relations between stores and further inputs used by the proofs *)

Definition same_products (st st' : St) : Prop := products st' = products st.

Definition same_orders (st st' : St) : Prop := orders st' = orders st.

(** Every call consumes the schedule from its front. *)
Definition sched_suffix (st st' : St) : Prop := exists pre, sched st = (pre ++ sched st')%list.

(** An order named [n] stays once it is there. *)
Definition orders_kept (st st' : St) : Prop :=
  forall n, find_order n (orders st) <> None -> find_order n (orders st') <> None.

(** The customer upsert followed by the order upsert, as [handleMessage]
    runs them. *)
Definition upsert_phase (c : Customer) (o : Order) : M (string * bool) :=
  cid <- upsertCustomerAndGetId c ;; upsertOrder (o_id o) (o_amount o) "NEW" cid.

(** The store after ORD-1 was processed once. *)
Definition redelivery_store : St :=
  snd (handleMessage (order_msg "m1" "ORD-1" [mkItem "P1" 3 5 15]) (store_P1 10 [])).

(** The same message delivered twice. *)
Definition redelivered_loop : Loop :=
  let m := order_msg "m1" "ORD-1" [mkItem "P1" 3 5 15] in
  consumer_step (consumer_step (loop0 [] (store_P1 10 [])) (Some m)) (Some m).

(** [message.retryCount || 0] *)
Definition rc_of (m : Msg) : Z :=
  match retryCount m with Some n => n | None => 0 end.

(** The broker actions of [n] retries, the first one with [retryCount = k]. *)
Fixpoint retry_acts (m0 : Msg) (k : Z) (n : nat) : list action :=
  match n with
  | O => []
  | S n' => (ASendQueue (set_retryCount m0 k) :: AAck :: retry_acts m0 (k + 1) n')%list
  end.

(** Each of the next [n] deliveries of [m], the first from store [st] and
    every later one with [retryCount] raised by one as [processMessage]
    republishes it, makes [handle] fail with a retryable error. *)
Fixpoint fails_retryably (handle : Msg -> M unit) (m : Msg) (n : nat) (st : St) : bool :=
  match n with
  | O => true
  | S n' =>
      match handle m st with
      | (Err e, st') => herhaalbaar e && fails_retryably handle (set_retryCount m (rc_of m + 1)) n' st'
      | (Ok _, _) => false
      end
  end.

(** Every product record either is unchanged or keeps its Id and external
    id and has a non-negative stock. *)
Definition stock_guard (st st' : St) : Prop :=
  Forall2 (fun p p' => p' = p \/
             (prod_Id p' = prod_Id p /\
              prod_ExternalProductId p' = prod_ExternalProductId p /\ 0 <= prod_Stock p'))
          (products st) (products st').

(** A message with an event type the consumer does not know. *)
Definition unknown_event_msg : Msg :=
  mkMsg "m7" "DELETE_ORDER" (mkPayload (Some sample_customer) None)
        "2026-01-01T00:00:00.000Z" (Some 1).

(** A line named [n] stays once it is there. *)
Definition lines_kept (st st' : St) : Prop :=
  forall n, find_line n (lines st) <> None -> find_line n (lines st') <> None.

(** Line names are unique and no query misses a record. *)
Definition lines_ok (st : St) : Prop :=
  NoDup (map line_Name (lines st)) /\ ~ In RespStale (sched st).

Definition lines_inv (st st' : St) : Prop := lines_ok st -> lines_ok st'.

(** A store seen by a process without [SALESFORCE_INSTANCE_URL]. *)
Definition store_no_instance : St :=
  mkSt false true [] 0 [] [] [] [mkProductRec "p1" "P1" 10] [].

(** ** Relations and measures for the further properties *)

(** The classification an error carries agrees with its status code:
    unclassified, or classified with a code that is permanent exactly when
    it lies in 400..499. *)
Definition classified (e : jserr) : Prop :=
  isHerhaalbaar e = None \/
  exists s, statusCode e = Some s /\ isHerhaalbaar e = Some (negb ((400 <=? s) && (s <? 500))).

Definition errs_ok {A} (m : M A) : Prop :=
  forall st e st', m st = (Err e, st') -> classified e.

(** How many more deliveries a queued delivery can cause. *)
Definition weight (mr : Z) (d : delivery) : nat :=
  match d with
  | None => 1
  | Some m => S (Z.to_nat (mr - 1 - rc_of m))
  end.

Definition potential (mr : Z) (ls : Loop) : nat :=
  fold_right Nat.add 0%nat (map (weight mr) (queue ls)).

Definition same_lines (st st' : St) : Prop := lines st' = lines st.
Definition same_customers_only (st st' : St) : Prop :=
  orders st' = orders st /\ lines st' = lines st /\ products st' = products st.

(** Order names are unique and no query misses a record. *)
Definition orders_ok (st : St) : Prop :=
  NoDup (map ord_Name (orders st)) /\ ~ In RespStale (sched st).

Definition orders_inv (st st' : St) : Prop := orders_ok st -> orders_ok st'.

(** ** Frame reasoning: a relation between the store before and after *)

Definition frame {A} (R : St -> St -> Prop) (m : M A) : Prop :=
  forall st, R st (snd (m st)).

(** The relations used below: preorders that every request, and caching
    the token, preserve. *)
Class FrameRel (R : St -> St -> Prop) := {
  R_refl : forall st, R st st;
  R_trans : forall s1 s2 s3, R s1 s2 -> R s2 s3 -> R s1 s3;
  R_send : forall rq st, R st (with_req rq (with_sched (tl (sched st)) st));
  R_token : forall st, R st (with_token st)
}.

Section Frames.

Context {R : St -> St -> Prop} `{FrameRel R}.

Lemma frame_ret {A} (a : A) : frame R (ret a).
Proof. intro st; apply R_refl. Qed.

Lemma frame_throw {A} (e : jserr) : frame R (@throw A e).
Proof. intro st; apply R_refl. Qed.

Lemma frame_bind {A B} (m : M A) (k : A -> M B) :
  frame R m -> (forall a, frame R (k a)) -> frame R (bind m k).
Proof.
  intros Hm Hk st; unfold bind.
  specialize (Hm st); destruct (m st) as [[a|e] st'] eqn:E; simpl in *.
  - eapply R_trans; [exact Hm | apply Hk].
  - exact Hm.
Qed.

Lemma frame_try_catch {A} (m : M A) (h : jserr -> M A) :
  frame R m -> (forall e, frame R (h e)) -> frame R (try_catch m h).
Proof.
  intros Hm Hh st; unfold try_catch.
  specialize (Hm st); destruct (m st) as [[a|e] st'] eqn:E; simpl in *.
  - exact Hm.
  - eapply R_trans; [exact Hm | apply Hh].
Qed.

Lemma frame_http {A} rq (k : resp -> St -> A * St) :
  (forall r st, R st (snd (k r st))) -> frame R (http rq k).
Proof.
  intros Hk st; unfold http.
  destruct (match sched st with [] => RespOk | r :: _ => r end) as [| | |s|] eqn:E;
    try (simpl; apply R_send);
    match goal with
    | |- context [k ?r ?s1] =>
        specialize (Hk r s1); destruct (k r s1) as [a st2]; simpl in *;
        eapply R_trans; [apply R_send | exact Hk]
    end.
Qed.

Lemma frame_for_each {A} (f : A -> M unit) l :
  (forall x, frame R (f x)) -> frame R (for_each f l).
Proof.
  intro Hf; induction l as [|x r IH]; simpl.
  - apply frame_ret.
  - apply frame_bind; auto.
Qed.

Lemma frame_sf_catch {A} ctx e : frame R (@sf_catch A ctx e).
Proof.
  unfold sf_catch; destruct (response_status e) as [s|];
    [destruct (_ && _) |]; apply frame_throw.
Qed.

Lemma frame_authenticate : frame R authenticate.
Proof.
  intros st; unfold authenticate.
  destruct (token_valid st); [apply R_refl|].
  destruct (negb (env_instance st)); [apply R_refl|].
  apply (frame_http ReqToken (fun _ st => (tt, with_token st))).
  intros; apply R_token.
Qed.

Lemma frame_sfInstance : frame R sfInstance.
Proof. intro st; unfold sfInstance; destruct (env_instance st); apply R_refl. Qed.

End Frames.

Ltac frame_step :=
  match goal with
  | |- frame _ (bind _ _) => apply frame_bind; [|intro]
  | |- frame _ (try_catch _ _) => apply frame_try_catch; [|intro]
  | |- frame _ (ret _) => apply frame_ret
  | |- frame _ (throw _) => apply frame_throw
  | |- frame _ (sf_catch _ _) => apply frame_sf_catch
  | |- frame _ sfInstance => apply frame_sfInstance
  | |- frame _ authenticate => apply frame_authenticate
  | |- frame _ (for_each _ _) => apply frame_for_each; intro
  | |- frame _ (http _ _) => apply frame_http; intros ? ?
  | |- frame _ (match ?x with _ => _ end) => destruct x
  | |- frame _ (if ?b then _ else _) => destruct b
  | |- frame _ (let (_, _) := ?p in _) => destruct p
  end.

Create HintDb frames.
#[export] Hint Resolve frame_ret frame_throw frame_bind frame_try_catch
  frame_for_each frame_sf_catch frame_sfInstance : frames.

(** *** The product records *)

#[export] Instance same_products_frame : FrameRel same_products.
Proof.
  split; unfold same_products; intros; [reflexivity | congruence | reflexivity | reflexivity].
Qed.

Ltac frame_close :=
  cbn beta iota in *;
  repeat match goal with
  | |- context [fresh_id ?st] => destruct (fresh_id st) eqn:?
  | |- context [customer_upsert_eff ?c ?st] =>
      unfold customer_upsert_eff; destruct (find_customer (c_id c) (customers st))
  | |- context [let (_, _) := ?p in _] => destruct p eqn:?
  end;
  simpl in *.

Lemma fresh_id_products st id st1 :
  fresh_id st = (id, st1) -> products st1 = products st /\ orders st1 = orders st /\
                             lines st1 = lines st /\ reqs st1 = reqs st.
Proof. unfold fresh_id; intro E; injection E as _ <-; simpl; auto. Qed.

Ltac close_products :=
  unfold same_products; simpl;
  repeat match goal with
  | H : fresh_id _ = _ |- _ => apply fresh_id_products in H; destruct H as [H _]
  end;
  simpl; congruence.

Lemma upsertCustomer_products c : frame same_products (upsertCustomerAndGetId c).
Proof.
  unfold upsertCustomerAndGetId; repeat frame_step; frame_close; close_products.
Qed.

Lemma upsertOrder_products n t s cid : frame same_products (upsertOrder n t s cid).
Proof.
  unfold upsertOrder, query_order; repeat frame_step; frame_close; close_products.
Qed.

Lemma upsertOrderLines_products osf oid items :
  frame same_products (upsertOrderLines osf oid items).
Proof.
  unfold upsertOrderLines, upsert_line; repeat frame_step; frame_close; close_products.
Qed.

Lemma findProduct_products ext : frame same_products (findProductByExternalProductId ext).
Proof.
  unfold findProductByExternalProductId; repeat frame_step; frame_close; close_products.
Qed.

(** *** The order records and the response schedule *)

#[export] Instance same_orders_frame : FrameRel same_orders.
Proof.
  split; unfold same_orders; intros; [reflexivity | congruence | reflexivity | reflexivity].
Qed.

#[export] Instance sched_suffix_frame : FrameRel sched_suffix.
Proof.
  split; unfold sched_suffix; intros.
  - exists []; reflexivity.
  - destruct H as [p1 H1], H0 as [p2 H2]. exists (p1 ++ p2)%list. rewrite H1, H2, app_assoc. reflexivity.
  - simpl. destruct (sched st) as [|r l]; [exists [] | exists [r]]; reflexivity.
  - exists []; reflexivity.
Qed.

Lemma fresh_id_sched st id st1 : fresh_id st = (id, st1) -> sched st1 = sched st /\ customers st1 = customers st.
Proof. unfold fresh_id; intro E; injection E as _ <-; simpl; auto. Qed.

Ltac close_orders :=
  unfold same_orders; simpl;
  repeat match goal with
  | H : fresh_id _ = _ |- _ => apply fresh_id_products in H; destruct H as [_ [H _]]
  end;
  simpl; congruence.

Ltac close_sched :=
  unfold sched_suffix; simpl;
  repeat match goal with
  | H : fresh_id _ = _ |- _ => apply fresh_id_sched in H; destruct H as [H _]
  end;
  exists []; simpl; congruence.

Lemma upsertCustomer_orders c : frame same_orders (upsertCustomerAndGetId c).
Proof.
  unfold upsertCustomerAndGetId; repeat frame_step; frame_close; close_orders.
Qed.

Lemma upsertCustomer_sched c : frame sched_suffix (upsertCustomerAndGetId c).
Proof.
  unfold upsertCustomerAndGetId; repeat frame_step; frame_close; close_sched.
Qed.

(** *** Case analysis on a monadic computation *)

Lemma sf_catch_err {A} ctx e st : exists e', @sf_catch A ctx e st = (Err e', st).
Proof.
  unfold sf_catch, throw; destruct (response_status e); [destruct (_ && _)%bool|]; eauto.
Qed.

Lemma sf_catch_flag {A} ctx e st e' st' :
  @sf_catch A ctx e st = (Err e', st') ->
  isHerhaalbaar e' = Some (match response_status e with
                           | Some s => negb (negb (s =? 0) && (400 <=? s) && (s <? 500))
                           | None => true end).
Proof.
  unfold sf_catch, throw; destruct (response_status e);
    [destruct (_ && _)%bool|]; intro E; injection E as <- _; reflexivity.
Qed.

Ltac destr_atomic :=
  match goal with
  | |- context [match ?x with _ => _ end] =>
      lazymatch x with
      | context [match _ with _ => _ end] => fail
      | _ => destruct x eqn:?
      end
  end.

Ltac unfold_m :=
  unfold bind, try_catch, authenticate, sfInstance, http, ret, throw,
    with_req, with_sched, with_token, with_orders, with_lines, with_products,
    with_customers, fresh_id, order_patch_eff, line_patch_eff, product_patch_eff.

Ltac crush_m :=
  unfold_m;
  repeat (cbn in *; destr_atomic);
  cbn in *; try tauto; try congruence;
  repeat match goal with
  | H : context [@sf_catch ?A ?c ?e ?s] |- _ =>
      let He := fresh in
      destruct (@sf_catch_err A c e s) as [? He]; rewrite He in H; cbn in H
  | |- context [@sf_catch ?A ?c ?e ?s] =>
      let He := fresh in
      destruct (@sf_catch_err A c e s) as [? He]; rewrite He; cbn
  end;
  try tauto; try congruence.

(** *** Lookups by Name *)

Lemma find_order_map_name f n os :
  (forall o, ord_Name (f o) = ord_Name o) ->
  find_order n (map f os) = None <-> find_order n os = None.
Proof.
  intro Hf; induction os as [|o r IH]; simpl; [tauto|].
  rewrite Hf; destruct (String.eqb (ord_Name o) n); [split; discriminate | exact IH].
Qed.

Lemma find_order_app n os r :
  ord_Name r = n -> find_order n (os ++ [r])%list <> None.
Proof.
  intro Hr; induction os as [|o l IH]; simpl.
  - rewrite Hr, String.eqb_refl; discriminate.
  - destruct (String.eqb (ord_Name o) n); [discriminate | exact IH].
Qed.

Lemma find_order_app_keep n os l :
  find_order n os <> None -> find_order n (os ++ l)%list <> None.
Proof.
  induction os as [|o r IH]; simpl; [tauto|].
  destruct (String.eqb (ord_Name o) n); [discriminate | exact IH].
Qed.

Lemma find_order_patch n id t s c os :
  find_order n os <> None ->
  find_order n (map (fun o => if String.eqb (ord_Id o) id
                              then mkOrderRec (ord_Id o) (ord_Name o) t s c else o) os) <> None.
Proof.
  intros H E; apply find_order_map_name in E; [exact (H E)|].
  intro o; destruct (String.eqb (ord_Id o) id); reflexivity.
Qed.

#[export] Instance orders_kept_frame : FrameRel orders_kept.
Proof. split; unfold orders_kept; simpl; auto. Qed.

(** *** The order upsert *)

Lemma upsertOrder_existing n t s cid st :
  find_order n (orders st) <> None -> ~ In RespStale (sched st) ->
  match fst (upsertOrder n t s cid st) with Ok (_, c) => c = false | Err _ => True end.
Proof.
  intros Hex Hns; unfold upsertOrder, query_order; crush_m.
Qed.

Lemma upsertOrder_ok_exists n t s cid st :
  match upsertOrder n t s cid st with
  | (Ok _, st') => find_order n (orders st') <> None
  | (Err _, _) => True
  end.
Proof.
  unfold upsertOrder, query_order; crush_m.
  all: first [ apply find_order_patch; unfold find_order; congruence
             | apply find_order_app; reflexivity ].
Qed.

(** *** Frames of the stock helpers *)

Lemma findProduct_orders ext : frame same_orders (findProductByExternalProductId ext).
Proof.
  unfold findProductByExternalProductId; repeat frame_step; frame_close; close_orders.
Qed.

Lemma setProductStock_orders id v : frame same_orders (setProductStockById id v).
Proof.
  unfold setProductStockById; repeat frame_step; frame_close; close_orders.
Qed.

Lemma decrement_orders items oid : frame same_orders (decrementStockForOrderItems items oid).
Proof.
  unfold decrementStockForOrderItems, decrement_item.
  repeat (frame_step || apply findProduct_orders || apply setProductStock_orders).
Qed.

Lemma upsertOrderLines_orders osf oid items :
  frame same_orders (upsertOrderLines osf oid items).
Proof.
  unfold upsertOrderLines, upsert_line; repeat frame_step; frame_close; close_orders.
Qed.

(** [handleMessage] on an order event, with the two upserts grouped. *)
Lemma handle_with_order b m o c st :
  is_order_event (event m) = true -> order (payload m) = Some o ->
  customer (payload m) = Some c ->
  handle_with b m st =
  (r <- (cid <- upsertCustomerAndGetId c ;; upsertOrder (o_id o) (o_amount o) "NEW" cid) ;;
   let (orderSfId, createdNew) := r in
   (if b then upsertOrderLines orderSfId (o_id o) (o_items o) else ret tt) ;;;
   if createdNew then decrementStockForOrderItems (o_items o) (o_id o) else ret tt) st.
Proof.
  intros Hev Ho Hc; unfold handle_with; rewrite Hev, Ho, Hc.
  unfold bind; destruct (upsertCustomerAndGetId c st) as [[cid|e] st1]; [|reflexivity].
  destruct (upsertOrder (o_id o) (o_amount o) "NEW" cid st1) as [[[osf cn]|e] st2];
    reflexivity.
Qed.

Lemma not_in_suffix (x : resp) pre l : ~ In x (pre ++ l)%list -> ~ In x l.
Proof. intros H Hi; apply H, in_or_app; right; exact Hi. Qed.

Lemma upsert_phase_products c o : frame same_products (upsert_phase c o).
Proof.
  unfold upsert_phase; apply frame_bind;
    [apply upsertCustomer_products | intro; apply upsertOrder_products].
Qed.

Lemma upsert_phase_existing c o st id cn st1 :
  find_order (o_id o) (orders st) <> None -> ~ In RespStale (sched st) ->
  upsert_phase c o st = (Ok (id, cn), st1) -> cn = false.
Proof.
  intros Hex Hns E; unfold upsert_phase, bind in E.
  pose proof (upsertCustomer_orders c st) as Ho.
  pose proof (upsertCustomer_sched c st) as Hs.
  destruct (upsertCustomerAndGetId c st) as [[cid|e] s1]; [|discriminate].
  unfold same_orders, sched_suffix in *; simpl in *.
  destruct Hs as [pre Hs].
  pose proof (upsertOrder_existing (o_id o) (o_amount o) "NEW" cid s1) as H.
  rewrite E in H; apply H; [congruence | rewrite Hs in Hns; eapply not_in_suffix; eauto].
Qed.

Lemma upsert_phase_ok_exists c o st id cn st1 :
  upsert_phase c o st = (Ok (id, cn), st1) -> find_order (o_id o) (orders st1) <> None.
Proof.
  intro E; unfold upsert_phase, bind in E.
  destruct (upsertCustomerAndGetId c st) as [[cid|e] s1]; [|discriminate].
  pose proof (upsertOrder_ok_exists (o_id o) (o_amount o) "NEW" cid s1) as H.
  rewrite E in H; exact H.
Qed.

Lemma handle_with_phase b m o c st :
  is_order_event (event m) = true -> order (payload m) = Some o ->
  customer (payload m) = Some c ->
  handle_with b m st =
  match upsert_phase c o st with
  | (Ok (osf, cn), st1) =>
      ((if b then upsertOrderLines osf (o_id o) (o_items o) else ret tt) ;;;
       if cn then decrementStockForOrderItems (o_items o) (o_id o) else ret tt) st1
  | (Err e, st1) => (Err e, st1)
  end.
Proof.
  intros Hev Ho Hc; rewrite (handle_with_order b m o c st Hev Ho Hc).
  unfold upsert_phase, bind at 1.
  destruct ((cid <- upsertCustomerAndGetId c ;; upsertOrder (o_id o) (o_amount o) "NEW" cid) st)
    as [[[osf cn]|e] st1]; reflexivity.
Qed.

(** C2: on an order event, [handleMessage] decrements stock exactly when the
    order upsert reports [createdNew = true]: after the upserts it continues
    with [decrementStockForOrderItems] on the state they left when
    [createdNew] is true, and stops with success otherwise.  When the order
    already exists in the store (a redelivery under a new [messageId]) and no
    query misses a record, the upsert reports [createdNew = false] and no
    product's stock changes. *)
Theorem handleMessage_guarded_decrement m o c st :
  is_order_event (event m) = true -> order (payload m) = Some o ->
  customer (payload m) = Some c ->
  (forall id cn st1, upsert_phase c o st = (Ok (id, cn), st1) ->
     handleMessage m st =
     if cn then decrementStockForOrderItems (o_items o) (o_id o) st1 else (Ok tt, st1)) /\
  (find_order (o_id o) (orders st) <> None -> ~ In RespStale (sched st) ->
     (forall id cn st1, upsert_phase c o st = (Ok (id, cn), st1) -> cn = false) /\
     products (snd (handleMessage m st)) = products st).
Proof.
  intros Hev Ho Hc; unfold handleMessage.
  rewrite (handle_with_phase false m o c st Hev Ho Hc).
  split.
  - intros id cn st1 E; rewrite E; destruct cn; reflexivity.
  - intros Hex Hns; split.
    + intros id cn st1 E; exact (upsert_phase_existing c o st id cn st1 Hex Hns E).
    + pose proof (upsert_phase_products c o st) as Hp.
      destruct (upsert_phase c o st) as [[[id cn]|e] st1] eqn:E; unfold same_products in Hp;
        simpl in Hp |- *; [|exact Hp].
      rewrite (upsert_phase_existing c o st id cn st1 Hex Hns E); exact Hp.
Qed.

Lemma handleMessage_guarded_decrement_witness :
  stock_of "P1" redelivery_store = Some 7 /\
  products (snd (handleMessage (order_msg "m2" "ORD-1" [mkItem "P1" 3 5 15]) redelivery_store))
  = products redelivery_store.
Proof.
  split; [vm_compute; reflexivity|].
  apply (handleMessage_guarded_decrement (order_msg "m2" "ORD-1" [mkItem "P1" 3 5 15])
           (sample_order "ORD-1" [mkItem "P1" 3 5 15]) sample_customer redelivery_store);
    try reflexivity; vm_compute; [discriminate | intros []].
Defined.

(** C1 (divergence): a CREATE_ORDER message whose customer upsert is answered
    with HTTP 401 or HTTP 429 leaves [upsertCustomerAndGetId] with a
    permanent error ([isHerhaalbaar = false], [statusCode] 401 or 429),
    because the [catch] block classifies every status in 400..499 as
    permanent; the loop then nacks the delivery without requeue and records
    it as failed, with nothing requeued and nothing dead-lettered.  An HTTP
    503 at the same point is retryable and the message is requeued. *)
Theorem consumer_401_429_permanent :
  let m := order_msg "m1" "ORD-1" [mkItem "P1" 3 5 15] in
  Forall (fun s =>
     match fst (upsertCustomerAndGetId sample_customer (store_P1 10 [RespHttp s])) with
     | Err e => isHerhaalbaar e = Some false /\ statusCode e = Some s
     | Ok _ => False
     end /\
     let ls := consumer_step (loop0 [] (store_P1 10 [RespHttp s])) (Some m) in
     acts ls = [ANack false] /\ queue ls = [] /\ dlq ls = [] /\
     ledger ls = [mkProcessed "m1" failed
                    (Some ("Salesforce 4xx bij customer upsert: " ++
                          json_str "Request failed with status code"))])
    [401; 429] /\
  acts (consumer_step (loop0 [] (store_P1 10 [RespHttp 503])) (Some m)) =
    [ASendQueue (set_retryCount m 1); AAck].
Proof.
  intro m; split; [repeat constructor; vm_compute; reflexivity | vm_compute; reflexivity].
Qed.

(** *** The ledger under [processMessage] *)

Lemma isMessageProcessed_false id l :
  isMessageProcessed id l = false -> ~ In id (map pm_messageId l).
Proof.
  unfold isMessageProcessed; intros H Hin.
  apply in_map_iff in Hin as [r [<- Hr]].
  assert (existsb (fun r' => String.eqb (pm_messageId r') (pm_messageId r)) l = true)
    by (apply existsb_exists; exists r; split; [exact Hr | apply String.eqb_refl]).
  congruence.
Qed.

Lemma isMessageProcessed_mark id s err l :
  isMessageProcessed id (markMessageProcessed id s err l) = true.
Proof.
  unfold markMessageProcessed; destruct (isMessageProcessed id l) eqn:E; [exact E|].
  unfold isMessageProcessed; rewrite existsb_app; simpl; rewrite String.eqb_refl.
  apply orb_true_r.
Qed.

Lemma mark_nodup id s err l :
  NoDup (map pm_messageId l) -> NoDup (map pm_messageId (markMessageProcessed id s err l)).
Proof.
  unfold markMessageProcessed; destruct (isMessageProcessed id l) eqn:E; [auto|].
  intro H; rewrite map_app; simpl.
  apply NoDup_app; [exact H | repeat constructor; auto |].
  intros x Hx [<- | []]; exact (isMessageProcessed_false _ _ E Hx).
Qed.

Lemma mark_append id s err l : exists new, markMessageProcessed id s err l = (l ++ new)%list.
Proof.
  unfold markMessageProcessed; destruct (isMessageProcessed id l);
    [exists []; rewrite app_nil_r | eexists]; reflexivity.
Qed.

Lemma processMessage_ledger mr h ls d :
  ledger (processMessage mr h ls d) = ledger ls \/
  exists id s err, ledger (processMessage mr h ls d) = markMessageProcessed id s err (ledger ls).
Proof.
  unfold processMessage; destruct d as [m|]; [|left; reflexivity].
  destruct (isMessageProcessed (messageId m) (ledger ls)); [left; reflexivity|].
  destruct (h m (store ls)) as [[u|e] st'].
  - right; do 3 eexists; reflexivity.
  - destruct (herhaalbaar e && _)%bool; [left; reflexivity|].
    destruct (negb (herhaalbaar e)); right; do 3 eexists; reflexivity.
Qed.

(** C3: a delivery whose [messageId] already has a ledger record (success or
    failed) is acknowledged and nothing else happens: the handler does not
    run, the store, the queues and the retry count are untouched, and the
    ledger is unchanged.  Every step keeps the ledger append-only with at
    most one record per [messageId], and a successful first delivery leaves
    a record, so a second delivery of the same id is short-circuited. *)
Theorem processMessage_at_most_once (mr : Z) (h : Msg -> M unit) :
  (forall ls m, isMessageProcessed (messageId m) (ledger ls) = true ->
     processMessage mr h ls (Some m) = log_act AAck ls) /\
  (forall ls d, NoDup (map pm_messageId (ledger ls)) ->
     NoDup (map pm_messageId (ledger (processMessage mr h ls d))) /\
     exists new, ledger (processMessage mr h ls d) = (ledger ls ++ new)%list) /\
  (forall ls m u st', h m (store ls) = (Ok u, st') ->
     isMessageProcessed (messageId m) (ledger ls) = false ->
     isMessageProcessed (messageId m) (ledger (processMessage mr h ls (Some m))) = true).
Proof.
  split; [|split].
  - intros ls m H; unfold processMessage; rewrite H; reflexivity.
  - intros ls d Hnd; destruct (processMessage_ledger mr h ls d) as [-> | (id & s & err & ->)].
    + split; [exact Hnd | exists []; rewrite app_nil_r; reflexivity].
    + split; [apply mark_nodup, Hnd | apply mark_append].
  - intros ls m u st' Hh Hn; unfold processMessage; rewrite Hn, Hh; simpl.
    apply isMessageProcessed_mark.
Qed.

Lemma processMessage_at_most_once_witness :
  isMessageProcessed "m1"
    (ledger (consumer_step (loop0 [] (store_P1 10 [])) (Some (order_msg "m1" "ORD-1" [mkItem "P1" 3 5 15])))) = true /\
  redelivered_loop =
  log_act AAck (consumer_step (loop0 [] (store_P1 10 [])) (Some (order_msg "m1" "ORD-1" [mkItem "P1" 3 5 15]))) /\
  length (ledger redelivered_loop) = 1%nat /\ stock_of "P1" (store redelivered_loop) = Some 7.
Proof.
  assert (H1 : isMessageProcessed "m1"
    (ledger (consumer_step (loop0 [] (store_P1 10 [])) (Some (order_msg "m1" "ORD-1" [mkItem "P1" 3 5 15])))) = true)
    by (vm_compute; reflexivity).
  split; [exact H1|]; split; [|vm_compute; split; reflexivity].
  apply (proj1 (processMessage_at_most_once maxRetries handleMessage)); exact H1.
Defined.

(** *** Retries of a message that always fails *)

Lemma set_retryCount_twice m a b :
  set_retryCount (set_retryCount m a) b = set_retryCount m b.
Proof. reflexivity. Qed.

Lemma dlqMessage_retryCount m k r t :
  obj_get "retryCount" (dlqMessage (set_retryCount m k) r t) = Some (JNum k).
Proof. reflexivity. Qed.

Section RetriedAttempts.

Variable mr : Z.
Variable h : Msg -> M unit.

Lemma process_retry ls m e st' :
  h m (store ls) = (Err e, st') -> herhaalbaar e = true ->
  isMessageProcessed (messageId m) (ledger ls) = false -> rc_of m + 1 < mr ->
  processMessage mr h ls (Some m) =
  mkLoop (queue ls ++ [Some (set_retryCount m (rc_of m + 1))]) (dlq ls) (ledger ls)
         (acts ls ++ [ASendQueue (set_retryCount m (rc_of m + 1)); AAck]) st' (clock ls).
Proof.
  intros Hh He Hn Hlt; unfold processMessage; rewrite Hn, Hh, He; unfold rc_of in Hlt |- *.
  replace (_ <? mr) with true by (symmetry; apply Z.ltb_lt; exact Hlt); reflexivity.
Qed.

Lemma process_dlq ls m e st' :
  h m (store ls) = (Err e, st') -> herhaalbaar e = true ->
  isMessageProcessed (messageId m) (ledger ls) = false -> mr <= rc_of m + 1 ->
  processMessage mr h ls (Some m) =
  mkLoop (queue ls) (dlq ls ++ [dlqMessage m (dlqReason e) (clock ls)])
         (markMessageProcessed (messageId m) failed (Some (message e)) (ledger ls))
         (acts ls ++ [ASendDLQ (dlqMessage m (dlqReason e) (clock ls)); AAck]) st' (clock ls).
Proof.
  intros Hh He Hn Hle; unfold processMessage; rewrite Hn, Hh, He; unfold rc_of in Hle |- *.
  replace (_ <? mr) with false by (symmetry; apply Z.ltb_ge; exact Hle); reflexivity.
Qed.

Lemma fails_retryably_S m n st :
  fails_retryably h m (S n) st = true ->
  exists e st', h m st = (Err e, st') /\ herhaalbaar e = true /\
                fails_retryably h (set_retryCount m (rc_of m + 1)) n st' = true.
Proof.
  simpl; destruct (h m st) as [[u|e] st']; [discriminate|].
  intro H; apply andb_prop in H; destruct H as [H1 H2]; exists e, st'; auto.
Qed.

Variable m0 : Msg.

Lemma retries_from (j : nat) : forall ls k,
  1 <= k -> k + Z.of_nat j = mr - 1 ->
  queue ls = [Some (set_retryCount m0 k)] ->
  isMessageProcessed (messageId m0) (ledger ls) = false ->
  fails_retryably h (set_retryCount m0 k) (S j) (store ls) = true ->
  exists e, herhaalbaar e = true /\
  let ls' := run mr h (S j) ls in
  let o := dlqMessage (set_retryCount m0 (mr - 1)) (dlqReason e) (clock ls) in
  acts ls' = (acts ls ++ retry_acts m0 (k + 1) j ++ [ASendDLQ o; AAck])%list /\
  dlq ls' = (dlq ls ++ [o])%list /\ queue ls' = [] /\
  ledger ls' = markMessageProcessed (messageId m0) failed (Some (message e)) (ledger ls).
Proof.
  induction j as [|j IH]; intros ls k Hk Hj Hq Hn Hf;
    destruct (fails_retryably_S _ _ _ Hf) as (e1 & st1 & Hh & He & Hf'); cbn zeta.
  - simpl in Hj; assert (k = mr - 1) as -> by lia.
    exists e1; split; [exact He|].
    simpl run; unfold step; rewrite Hq.
    rewrite (process_dlq _ _ e1 st1) by (simpl; unfold rc_of; simpl; first [exact Hh | exact He | exact Hn | lia]).
    simpl; rewrite ?app_nil_r; repeat split; reflexivity.
  - rewrite Nat2Z.inj_succ in Hj.
    change (run mr h (S (S j)) ls) with
      (match step mr h ls with None => ls | Some ls1 => run mr h (S j) ls1 end).
    unfold step; rewrite Hq.
    rewrite (process_retry _ _ e1 st1) by (simpl; unfold rc_of; simpl; first [exact Hh | exact He | exact Hn | lia]).
    unfold rc_of in Hf' |- *; simpl retryCount in Hf' |- *.
    rewrite set_retryCount_twice in Hf' |- *.
    match goal with |- context [run mr h (S j) ?l] =>
      destruct (IH l (k + 1)) as (e & He' & Ha & Hd & Hq' & Hl); simpl; try lia; try exact Hn;
      [reflexivity | exact Hf' |] end.
    exists e; split; [exact He'|].
    simpl in Ha, Hd, Hq', Hl; rewrite Ha, Hd, Hq', Hl.
    rewrite <- !app_assoc; repeat split; reflexivity.
Qed.

End RetriedAttempts.

(** C4: take a fresh message (no [retryCount], or 0) alone in the queue and
    not in the ledger, and a handler that fails with a retryable error
    (possibly a different one each time) on each of its deliveries, the
    later ones carrying the raised [retryCount] and running on the store the
    previous attempt left.  With [maxRetries >= 2] (the configuration sets
    3), [maxRetries] deliveries republish it [maxRetries - 1] times with
    [retryCount] 1, 2, ..., [maxRetries - 1], acknowledging each delivery,
    then publish it once to the dead-letter queue carrying
    [retryCount = maxRetries - 1] and the last error's reason, acknowledge
    it and append a failed ledger record; the queue is then empty.  With
    [maxRetries <= 1] the first delivery already goes to the dead-letter
    queue, as the message was: it has a [retryCount] field only if the
    message had one. *)
Theorem retry_bound (mr : Z) (h : Msg -> M unit) (m0 : Msg) (ls : Loop) :
  queue ls = [Some m0] -> rc_of m0 = 0 ->
  isMessageProcessed (messageId m0) (ledger ls) = false ->
  fails_retryably h m0 (Nat.max 1 (Z.to_nat mr)) (store ls) = true ->
  exists e, herhaalbaar e = true /\
  let ls' := run mr h (Nat.max 1 (Z.to_nat mr)) ls in
  let o := dlqMessage (if 2 <=? mr then set_retryCount m0 (mr - 1) else m0)
                      (dlqReason e) (clock ls) in
  acts ls' = (acts ls ++ retry_acts m0 1 (Z.to_nat (mr - 1)) ++ [ASendDLQ o; AAck])%list /\
  dlq ls' = (dlq ls ++ [o])%list /\
  obj_get "retryCount" o =
    (if 2 <=? mr then Some (JNum (mr - 1)) else option_map JNum (retryCount m0)) /\
  queue ls' = [] /\
  ledger ls' = (ledger ls ++ [mkProcessed (messageId m0) failed (Some (message e))])%list.
Proof.
  intros Hq Hrc Hn Hf.
  destruct (Z.leb_spec 2 mr) as [Hmr|Hmr].
  - replace (Nat.max 1 (Z.to_nat mr)) with (S (S (Z.to_nat (mr - 2)))) in Hf |- * by lia.
    replace (Z.to_nat (mr - 1)) with (S (Z.to_nat (mr - 2))) by lia.
    destruct (fails_retryably_S h _ _ _ Hf) as (e1 & st1 & Hh & He & Hf').
    change (run mr h (S (S (Z.to_nat (mr - 2)))) ls) with
      (match step mr h ls with None => ls | Some ls1 => run mr h (S (Z.to_nat (mr - 2))) ls1 end).
    unfold step; rewrite Hq.
    rewrite (process_retry mr h _ _ e1 st1) by (simpl; first [exact Hh | exact He | exact Hn | lia]).
    rewrite Hrc in Hf' |- *.
    match goal with |- context [run mr h (S ?j) ?l] =>
      destruct (retries_from mr h m0 j l 1) as (e & He' & Ha & Hd & Hq' & Hl);
      [lia | lia | reflexivity | exact Hn | exact Hf' |] end.
    exists e; split; [exact He'|]; cbn zeta.
    rewrite Ha, Hd, Hq', Hl; simpl.
    unfold markMessageProcessed; rewrite Hn.
    rewrite <- !app_assoc; repeat split; reflexivity.
  - replace (Nat.max 1 (Z.to_nat mr)) with 1%nat in Hf |- * by lia.
    replace (Z.to_nat (mr - 1)) with 0%nat by lia.
    destruct (fails_retryably_S h _ _ _ Hf) as (e1 & st1 & Hh & He & _).
    exists e1; split; [exact He|]; cbn zeta.
    replace (2 <=? mr) with false by (symmetry; apply Z.leb_gt; lia).
    simpl run; unfold step; rewrite Hq.
    rewrite (process_dlq mr h _ _ e1 st1) by (simpl; first [exact Hh | exact He | exact Hn | lia]).
    simpl; unfold markMessageProcessed; rewrite Hn.
    repeat split; try reflexivity.
    unfold dlqMessage, obj_set, msg_to_obj; destruct (retryCount m0); reflexivity.
Qed.

Lemma retry_bound_witness :
  let m := order_msg "m1" "ORD-1" [mkItem "P1" 3 5 15] in
  let ls := loop0 [Some m] (store_P1 10 [RespNet; RespNet; RespNet]) in
  fails_retryably handleMessage m (Nat.max 1 (Z.to_nat maxRetries)) (store ls) = true /\
  exists e, herhaalbaar e = true /\
  let ls' := run maxRetries handleMessage (Nat.max 1 (Z.to_nat maxRetries)) ls in
  let o := dlqMessage (if 2 <=? maxRetries then set_retryCount m (maxRetries - 1) else m)
                      (dlqReason e) (clock ls) in
  acts ls' = (acts ls ++ retry_acts m 1 (Z.to_nat (maxRetries - 1)) ++ [ASendDLQ o; AAck])%list /\
  dlq ls' = (dlq ls ++ [o])%list /\
  obj_get "retryCount" o =
    (if 2 <=? maxRetries then Some (JNum (maxRetries - 1)) else option_map JNum (retryCount m)) /\
  queue ls' = [] /\
  ledger ls' = (ledger ls ++ [mkProcessed (messageId m) failed (Some (message e))])%list.
Proof.
  intros m ls.
  assert (Hf : fails_retryably handleMessage m (Nat.max 1 (Z.to_nat maxRetries)) (store ls) = true)
    by (vm_compute; reflexivity).
  split; [exact Hf|].
  exact (retry_bound maxRetries handleMessage m ls eq_refl eq_refl eq_refl Hf).
Defined.

(** *** Stock writes *)

Lemma Forall2_refl_list {X} (P : X -> X -> Prop) l :
  (forall x, P x x) -> Forall2 P l l.
Proof. intro HP; induction l; constructor; auto. Qed.

Lemma Forall2_trans_list {X} (P : X -> X -> Prop) l1 l2 l3 :
  (forall x y z, P x y -> P y z -> P x z) -> Forall2 P l1 l2 -> Forall2 P l2 l3 -> Forall2 P l1 l3.
Proof.
  intros HP H12; revert l3; induction H12; intros l3 H23; inversion H23; subst;
    constructor; eauto.
Qed.

#[export] Instance stock_guard_frame : FrameRel stock_guard.
Proof.
  split; unfold stock_guard; simpl; intros.
  - apply Forall2_refl_list; auto.
  - eapply Forall2_trans_list; [|eassumption|eassumption].
    intros x y z [-> | (H1 & H2 & H3)] [-> | (H4 & H5 & H6)]; auto.
    right; repeat split; congruence.
  - apply Forall2_refl_list; auto.
  - apply Forall2_refl_list; auto.
Qed.

Lemma same_products_guard {A} (m : M A) : frame same_products m -> frame stock_guard m.
Proof.
  intros Hm st; specialize (Hm st); unfold same_products, stock_guard in *; rewrite Hm.
  apply Forall2_refl_list; auto.
Qed.

Lemma setProductStock_guard id v : 0 <= v -> frame stock_guard (setProductStockById id v).
Proof.
  intro Hv; unfold setProductStockById; repeat frame_step.
  unfold stock_guard, product_patch_eff; simpl.
  induction (products st) as [|p ps IH]; simpl; constructor; auto.
  destruct (String.eqb (prod_Id p) id); [right; simpl; auto | left; reflexivity].
Qed.

Lemma decrement_item_guard oid it : frame stock_guard (decrement_item oid it).
Proof.
  unfold decrement_item; destruct (invalid_item it); [apply frame_throw|].
  apply frame_bind; [apply same_products_guard, findProduct_products|].
  intros [pid cur]; destruct (cur - quantity it <? 0) eqn:E; [apply frame_throw|].
  apply setProductStock_guard; apply Z.ltb_ge in E; exact E.
Qed.

Lemma decrement_guard items oid : frame stock_guard (decrementStockForOrderItems items oid).
Proof.
  unfold decrementStockForOrderItems; destruct items;
    [apply frame_ret | apply frame_for_each; intro; apply decrement_item_guard].
Qed.

Lemma for_each_app {X} (f : X -> M unit) l1 l2 st :
  for_each f (l1 ++ l2) st =
  match for_each f l1 st with
  | (Ok _, s1) => for_each f l2 s1
  | (Err e, s1) => (Err e, s1)
  end.
Proof.
  revert st; induction l1 as [|x r IH]; intro st; simpl.
  - reflexivity.
  - unfold bind; destruct (f x st) as [[u|e] s1]; [apply IH | reflexivity].
Qed.

Lemma decrement_item_eval oid it st p :
  invalid_item it = false -> token_valid st = true -> env_instance st = true ->
  sched st = [] -> find_product (productId it) (products st) = Some p ->
  let q := prod_Stock p - quantity it in
  match decrement_item oid it st with
  | (Ok _, st') => 0 <= q /\ products st' = products (product_patch_eff (prod_Id p) q st) /\
                   reqs st' = (reqs st ++ [ReqProductQuery (productId it); ReqProductPatch (prod_Id p) q])%list
  | (Err e, st') => q < 0 /\ isHerhaalbaar e = Some false /\ statusCode e = Some 409 /\
                    products st' = products st /\
                    reqs st' = (reqs st ++ [ReqProductQuery (productId it)])%list
  end.
Proof.
  intros Hi Ht He Hs Hf; cbn zeta.
  unfold decrement_item, findProductByExternalProductId, setProductStockById; rewrite Hi.
  unfold_m; rewrite Ht, He, Hs; cbn; unfold find_product in Hf; rewrite Hf; cbn.
  destruct (prod_Stock p - quantity it <? 0) eqn:E; cbn.
  - apply Z.ltb_lt in E; repeat split; auto.
  - apply Z.ltb_ge in E; rewrite Ht, He; cbn; rewrite <- app_assoc; repeat split; auto.
Qed.

Lemma decrement_for_each items oid :
  decrementStockForOrderItems items oid = for_each (decrement_item oid) items.
Proof. destruct items; reflexivity. Qed.

Lemma stock_guard_nonneg st st' :
  stock_guard st st' -> Forall (fun p => 0 <= prod_Stock p) (products st) ->
  Forall (fun p => 0 <= prod_Stock p) (products st').
Proof.
  unfold stock_guard; intros H2; induction H2 as [|p p' ps ps' Hp _ IH]; intro Hf;
    inversion Hf; subst; constructor; auto.
  destruct Hp as [-> | (_ & _ & Hs)]; auto.
Qed.

(** C5: [decrementStockForOrderItems] writes, for an item whose product has
    stock [current], exactly [current - quantity] and only when that is not
    negative; when it is negative the item fails with a permanent error
    (status 409) after the product query and writes nothing.  Hence every
    product record is left unchanged or gets a non-negative stock, and
    non-negative stock stays non-negative.  Items run one after the other
    and a failure does not undo the writes of the items before it. *)
Theorem decrement_never_negative (oid : string) :
  (forall items st, stock_guard st (snd (decrementStockForOrderItems items oid st))) /\
  (forall items st, Forall (fun p => 0 <= prod_Stock p) (products st) ->
     Forall (fun p => 0 <= prod_Stock p) (products (snd (decrementStockForOrderItems items oid st)))) /\
  (forall it st p,
     invalid_item it = false -> token_valid st = true -> env_instance st = true ->
     sched st = [] -> find_product (productId it) (products st) = Some p ->
     let q := prod_Stock p - quantity it in
     match decrement_item oid it st with
     | (Ok _, st') => 0 <= q /\ products st' = products (product_patch_eff (prod_Id p) q st) /\
                      reqs st' = (reqs st ++ [ReqProductQuery (productId it);
                                             ReqProductPatch (prod_Id p) q])%list
     | (Err e, st') => q < 0 /\ isHerhaalbaar e = Some false /\ statusCode e = Some 409 /\
                       products st' = products st /\
                       reqs st' = (reqs st ++ [ReqProductQuery (productId it)])%list
     end) /\
  (forall l1 l2 st,
     decrementStockForOrderItems (l1 ++ l2) oid st =
     match decrementStockForOrderItems l1 oid st with
     | (Ok _, s1) => decrementStockForOrderItems l2 oid s1
     | (Err e, s1) => (Err e, s1)
     end).
Proof.
  split; [|split; [|split]].
  - intros items st; apply decrement_guard.
  - intros items st; apply stock_guard_nonneg, decrement_guard.
  - intros it st p; apply decrement_item_eval.
  - intros l1 l2 st; rewrite !decrement_for_each; apply for_each_app.
Qed.

Lemma decrement_never_negative_witness :
  let st := store_P1 3 [] in
  let it1 := mkItem "P1" 1 5 5 in
  let it2 := mkItem "P1" 5 5 25 in
  (match decrement_item "ORD-9" it2 (snd (decrement_item "ORD-9" it1 st)) with
   | (Ok _, st') => False
   | (Err e, st') => 2 - 5 < 0 /\ isHerhaalbaar e = Some false /\ statusCode e = Some 409 /\
                     products st' = products (snd (decrement_item "ORD-9" it1 st)) /\ True
   end) /\
  stock_of "P1" (snd (decrementStockForOrderItems [it1; it2] "ORD-9" st)) = Some 2.
Proof.
  intros st it1 it2; split; [|vm_compute; reflexivity].
  pose proof (proj1 (proj2 (proj2 (decrement_never_negative "ORD-9")))
                it2 (snd (decrement_item "ORD-9" it1 st)) (mkProductRec "p1" "P1" 2)
                eq_refl eq_refl eq_refl eq_refl eq_refl) as H.
  cbn zeta in H; destruct (decrement_item "ORD-9" it2 (snd (decrement_item "ORD-9" it1 st)))
    as [[u|e] st']; [destruct H as [H _]; cbn in H; lia|].
  destruct H as (H1 & H2 & H3 & H4 & _); repeat split; auto.
Defined.

(** C6: an unparseable delivery is nacked without requeue and nothing else
    happens.  A delivery whose handler fails with a permanent error
    ([isHerhaalbaar = false]) is, whatever its [retryCount], nacked without
    requeue, gets a failed ledger record, and is neither republished nor
    dead-lettered.  [handleMessage] fails permanently on an unknown event
    type and on a missing [order] or [customer], and the helpers' [catch]
    block makes every HTTP status in 400..499 permanent. *)
Theorem permanent_failure_rejected (mr : Z) (h : Msg -> M unit) :
  (forall ls, processMessage mr h ls None = log_act (ANack false) ls) /\
  (forall ls m e st',
     isMessageProcessed (messageId m) (ledger ls) = false ->
     h m (store ls) = (Err e, st') -> isHerhaalbaar e = Some false ->
     processMessage mr h ls (Some m) =
     mkLoop (queue ls) (dlq ls)
            (markMessageProcessed (messageId m) failed (Some (message e)) (ledger ls))
            (acts ls ++ [ANack false]) st' (clock ls)) /\
  (forall m st, is_order_event (event m) = false -> is_customer_event (event m) = false ->
     handleMessage m st =
     (Err (permanentError ("Onbekend event type: " ++ event m) 400), st)) /\
  (forall m st, is_order_event (event m) = true -> order (payload m) = None ->
     handleMessage m st = (Err (permanentError "payload.order ontbreekt" 400), st)) /\
  (forall m o st, is_order_event (event m) = true -> order (payload m) = Some o ->
     customer (payload m) = None ->
     handleMessage m st =
     (Err (permanentError "payload.customer ontbreekt (nodig voor upsert)" 400), st)) /\
  (forall m st, is_order_event (event m) = false -> is_customer_event (event m) = true ->
     customer (payload m) = None ->
     handleMessage m st = (Err (permanentError "payload.customer ontbreekt" 400), st)) /\
  (forall A ctx e s st e' st', response_status e = Some s -> 400 <= s < 500 ->
     @sf_catch A ctx e st = (Err e', st') -> isHerhaalbaar e' = Some false).
Proof.
  repeat split.
  - intros ls m e st' Hn Hh Hf; unfold processMessage; rewrite Hn, Hh.
    unfold herhaalbaar; rewrite Hf; reflexivity.
  - intros m st Ho Hc; unfold handleMessage, handle_with; rewrite Ho, Hc; reflexivity.
  - intros m st Ho Hn; unfold handleMessage, handle_with; rewrite Ho, Hn; reflexivity.
  - intros m o st Ho Hs Hn; unfold handleMessage, handle_with; rewrite Ho, Hs, Hn; reflexivity.
  - intros m st Ho Hc Hn; unfold handleMessage, handle_with; rewrite Ho, Hc, Hn; reflexivity.
  - intros A ctx e s st e' st' Hs Hr E; apply sf_catch_flag in E; rewrite Hs in E.
    rewrite E; f_equal.
    replace (s =? 0) with false by (symmetry; apply Z.eqb_neq; lia).
    replace (400 <=? s) with true by (symmetry; apply Z.leb_le; lia).
    replace (s <? 500) with true by (symmetry; apply Z.ltb_lt; lia).
    reflexivity.
Qed.

Lemma permanent_failure_rejected_witness :
  consumer_step (loop0 [] (store_P1 10 [])) (Some unknown_event_msg) =
  mkLoop [] [] [mkProcessed "m7" failed (Some "Onbekend event type: DELETE_ORDER")]
         [ANack false] (store_P1 10 []) "2026-01-01T00:00:05.000Z".
Proof.
  apply (proj1 (proj2 (permanent_failure_rejected maxRetries handleMessage))
           (loop0 [] (store_P1 10 [])) unknown_event_msg
           (permanentError "Onbekend event type: DELETE_ORDER" 400) (store_P1 10 []));
    reflexivity.
Defined.

(** *** The order upsert, request by request *)

Lemma find_order_app_new n os r :
  find_order n os = None -> ord_Name r = n -> find_order n (os ++ [r])%list = Some r.
Proof.
  intros H Hr; induction os as [|o l IH]; simpl in *.
  - rewrite Hr, String.eqb_refl; reflexivity.
  - destruct (String.eqb (ord_Name o) n); [discriminate | exact (IH H)].
Qed.

(** C7: with a cached token and the instance URL set, [upsertOrder] first
    queries OrderCustom__c by Name; when a record is found it PATCHes it and
    returns its Id with [createdNew = false]; otherwise it POSTs a record
    named [externalOrderId] and returns the new Id with [createdNew = true];
    when the create response carries no id it queries by Name again and
    returns the Id found there with [createdNew = true], and fails with a
    retryable error (status 500) only when that query finds nothing. *)
Theorem upsertOrder_protocol n t s cid st :
  token_valid st = true -> env_instance st = true ->
  (forall r, find_order n (orders st) = Some r -> sched st = [] ->
     let (res, st') := upsertOrder n t s cid st in
     res = Ok (ord_Id r, false) /\
     reqs st' = (reqs st ++ [ReqOrderQuery n; ReqOrderPatch (ord_Id r)])%list /\
     orders st' = orders (order_patch_eff (ord_Id r) t s cid st)) /\
  (find_order n (orders st) = None -> sched st = [] ->
     let (res, st') := upsertOrder n t s cid st in
     res = Ok (sf_id (next_id st), true) /\
     reqs st' = (reqs st ++ [ReqOrderQuery n; ReqOrderPost n])%list /\
     orders st' = (orders st ++ [mkOrderRec (sf_id (next_id st)) n t s cid])%list) /\
  (find_order n (orders st) = None -> sched st = [RespOk; RespNoId] ->
     let (res, st') := upsertOrder n t s cid st in
     res = Ok (sf_id (next_id st), true) /\
     reqs st' = (reqs st ++ [ReqOrderQuery n; ReqOrderPost n; ReqOrderQuery n])%list /\
     orders st' = (orders st ++ [mkOrderRec (sf_id (next_id st)) n t s cid])%list) /\
  (find_order n (orders st) = None -> sched st = [RespOk; RespNoId; RespStale] ->
     let (res, st') := upsertOrder n t s cid st in
     (exists e, res = Err e /\ isHerhaalbaar e = Some true /\ statusCode e = Some 500) /\
     reqs st' = (reqs st ++ [ReqOrderQuery n; ReqOrderPost n; ReqOrderQuery n])%list).
Proof.
  intros Ht He; unfold upsertOrder, query_order.
  pose proof (find_order_app_new n (orders st) (mkOrderRec (sf_id (next_id st)) n t s cid)) as Hnew.
  repeat split; intros; unfold_m; rewrite Ht, He; cbn;
    repeat match goal with H : sched st = _ |- _ => rewrite H; cbn end;
    unfold find_order in *;
    repeat match goal with H : find _ (orders st) = _ |- _ => rewrite H; cbn end;
    try (rewrite Hnew by (first [assumption | reflexivity]); cbn);
    rewrite <- ?app_assoc; repeat split; eauto.
Qed.

Lemma upsertOrder_protocol_witness :
  let st := store_P1 10 [RespOk; RespNoId] in
  let (res, st') := upsertOrder "ORD-1" 30 "NEW" "a01" st in
  res = Ok (sf_id 0, true) /\
  reqs st' = [ReqOrderQuery "ORD-1"; ReqOrderPost "ORD-1"; ReqOrderQuery "ORD-1"] /\
  orders st' = [mkOrderRec (sf_id 0) "ORD-1" 30 "NEW" "a01"].
Proof.
  exact (proj1 (proj2 (proj2 (upsertOrder_protocol "ORD-1" 30 "NEW" "a01"
           (store_P1 10 [RespOk; RespNoId]) eq_refl eq_refl))) eq_refl eq_refl).
Defined.

(** *** Order lines *)






Lemma nodup_snoc (x : string) l : NoDup l -> ~ In x l -> NoDup (l ++ [x])%list.
Proof.
  intros H Hx; apply NoDup_app; [exact H | repeat constructor; auto |].
  intros y Hy [<- | []]; exact (Hx Hy).
Qed.

#[export] Instance lines_kept_frame : FrameRel lines_kept.
Proof. split; unfold lines_kept; simpl; auto. Qed.

#[export] Instance lines_inv_frame : FrameRel lines_inv.
Proof.
  split; unfold lines_inv, lines_ok; simpl; auto.
  intros rq st [H1 H2]; split; [exact H1|].
  destruct (sched st) as [|r l]; simpl in *; tauto.
Qed.











#[export] Instance same_lines_frame : FrameRel same_lines.
Proof.
  split; unfold same_lines; intros; [reflexivity | congruence | reflexivity | reflexivity].
Qed.








(** C9: the object published to the dead-letter queue is the message's own
    fields ([messageId], [event], [payload], [timestamp] and, when present,
    [retryCount]) unchanged and in order, followed by exactly [dlqReason]
    and [dlqTimestamp]; and a step of the loop either leaves the
    dead-letter queue as it is or appends exactly that object for the
    delivered message, with the error's message (or "Unknown error") as
    reason and the current time as timestamp. *)
Theorem dlq_message_shape :
  (forall m r t,
     dlqMessage m r t = (msg_to_obj m ++ [("dlqReason", JStr r); ("dlqTimestamp", JStr t)])%list) /\
  (forall mr h ls d,
     dlq (processMessage mr h ls d) = dlq ls \/
     exists m e, d = Some m /\
       dlq (processMessage mr h ls d) = (dlq ls ++ [dlqMessage m (dlqReason e) (clock ls)])%list).
Proof.
  split.
  - intros m r t; unfold dlqMessage, msg_to_obj; destruct (retryCount m); reflexivity.
  - intros mr h ls [m|]; [|left; reflexivity].
    unfold processMessage.
    destruct (isMessageProcessed (messageId m) (ledger ls)); [left; reflexivity|].
    destruct (h m (store ls)) as [[u|e] st']; [left; reflexivity|].
    destruct (herhaalbaar e && _)%bool; [left; reflexivity|].
    destruct (negb (herhaalbaar e)); [left; reflexivity|].
    right; exists m, e; split; reflexivity.
Qed.

(** C10: an error without classification flag ([isHerhaalbaar] undefined)
    is handled as a retryable one: the delivery is republished with the next
    [retryCount] while that stays below [maxRetries] and dead-lettered
    otherwise, and never nacked.  [sfInstance] throws such an error when
    [SALESFORCE_INSTANCE_URL] is missing, and so does [authenticate] when it
    has to fetch a token; an order or customer event then fails with it. *)
Theorem unflagged_error_retryable (mr : Z) (h : Msg -> M unit) :
  (forall ls m e st',
     isMessageProcessed (messageId m) (ledger ls) = false ->
     h m (store ls) = (Err e, st') -> isHerhaalbaar e = None ->
     processMessage mr h ls (Some m) =
     (if rc_of m + 1 <? mr
     then mkLoop (queue ls ++ [Some (set_retryCount m (rc_of m + 1))]) (dlq ls) (ledger ls)
                 (acts ls ++ [ASendQueue (set_retryCount m (rc_of m + 1)); AAck]) st' (clock ls)
     else mkLoop (queue ls) (dlq ls ++ [dlqMessage m (dlqReason e) (clock ls)])
                 (markMessageProcessed (messageId m) failed (Some (message e)) (ledger ls))
                 (acts ls ++ [ASendDLQ (dlqMessage m (dlqReason e) (clock ls)); AAck]) st'
                 (clock ls))) /\
  (forall st, env_instance st = false ->
     sfInstance st = (Err (plainError "Missing env var: SALESFORCE_INSTANCE_URL"), st) /\
     (token_valid st = false ->
      authenticate st = (Err (plainError "Missing env var: SALESFORCE_INSTANCE_URL"), st))) /\
  (forall m o c st, env_instance st = false -> token_valid st = true ->
     is_order_event (event m) = true -> order (payload m) = Some o ->
     customer (payload m) = Some c ->
     handleMessage m st = (Err (plainError "Missing env var: SALESFORCE_INSTANCE_URL"), st)) /\
  (forall m c st, env_instance st = false -> token_valid st = true ->
     is_order_event (event m) = false -> is_customer_event (event m) = true ->
     customer (payload m) = Some c ->
     handleMessage m st = (Err (plainError "Missing env var: SALESFORCE_INSTANCE_URL"), st)).
Proof.
  split; [|split; [|split]].
  - intros ls m e st' Hn Hh Hf; unfold processMessage; rewrite Hn, Hh.
    unfold herhaalbaar; rewrite Hf; unfold rc_of; simpl.
    destruct (_ <? mr); reflexivity.
  - intros st He; unfold sfInstance, authenticate; rewrite He; split; [reflexivity|].
    intro Ht; rewrite Ht; reflexivity.
  - intros m o c st He Ht Hev Ho Hc; unfold handleMessage, handle_with; rewrite Hev, Ho, Hc.
    unfold upsertCustomerAndGetId, bind, authenticate, sfInstance; rewrite Ht, He; reflexivity.
  - intros m c st He Ht Hev Hcev Hc; unfold handleMessage, handle_with; rewrite Hev, Hcev, Hc.
    unfold upsertCustomerAndGetId, bind, authenticate, sfInstance; rewrite Ht, He; reflexivity.
Qed.

Lemma unflagged_error_retryable_witness :
  let m := order_msg "m1" "ORD-1" [mkItem "P1" 3 5 15] in
  consumer_step (loop0 [] store_no_instance) (Some m) =
    mkLoop [Some (set_retryCount m 1)] [] [] [ASendQueue (set_retryCount m 1); AAck]
           store_no_instance "2026-01-01T00:00:05.000Z" /\
  acts (run maxRetries handleMessage 3 (loop0 [Some m] store_no_instance)) =
    [ASendQueue (set_retryCount m 1); AAck; ASendQueue (set_retryCount m 2); AAck;
     ASendDLQ (dlqMessage (set_retryCount m 2) "Missing env var: SALESFORCE_INSTANCE_URL"
                          "2026-01-01T00:00:05.000Z"); AAck].
Proof.
  intro m; split; [|vm_compute; reflexivity].
  unfold consumer_step.
  rewrite (proj1 (unflagged_error_retryable maxRetries handleMessage) (loop0 [] store_no_instance) m
             (plainError "Missing env var: SALESFORCE_INSTANCE_URL") store_no_instance
             eq_refl
             (proj1 (proj2 (proj2 (unflagged_error_retryable maxRetries handleMessage)))
                m (sample_order "ORD-1" [mkItem "P1" 3 5 15]) sample_customer store_no_instance
                eq_refl eq_refl eq_refl eq_refl eq_refl)
             eq_refl).
  reflexivity.
Defined.

(** ** Further properties of the code *)

(** *** [escapeSoql] *)

Lemma str_app_assoc (a b c : string) : a ++ (b ++ c) = (a ++ b) ++ c.
Proof. induction a as [|x r IH]; simpl; [reflexivity|]; rewrite IH; reflexivity. Qed.

Lemma replace_all_app c rep a b :
  replace_all c rep (a ++ b) = replace_all c rep a ++ replace_all c rep b.
Proof.
  induction a as [|d r IH]; simpl; [reflexivity|].
  destruct (Ascii.eqb d c); rewrite IH; [apply str_app_assoc | reflexivity].
Qed.

Lemma escapeSoql_cons x r : escapeSoql (String x r) = esc_char x ++ escapeSoql r.
Proof.
  unfold escapeSoql, esc_char.
  destruct (Ascii.eqb x backslash) eqn:Hb.
  - apply Ascii.eqb_eq in Hb; subst. reflexivity.
  - simpl. rewrite Hb. simpl. destruct (Ascii.eqb x squote); reflexivity.
Qed.

Lemma soql_read_escape value rest :
  soql_read (escapeSoql value ++ String squote rest) = Some (value, rest).
Proof.
  induction value as [|x r IH]; [reflexivity|].
  rewrite escapeSoql_cons. unfold esc_char.
  destruct (Ascii.eqb x backslash) eqn:Hb; [|destruct (Ascii.eqb x squote) eqn:Hq].
  - apply Ascii.eqb_eq in Hb; subst. simpl. rewrite IH. reflexivity.
  - apply Ascii.eqb_eq in Hq; subst. simpl. rewrite IH. reflexivity.
  - simpl. rewrite Hb, Hq, IH. reflexivity.
Qed.

(** X1: a value spliced as [escapeSoql(value)] between single quotes is read
    back by the SOQL lexer as exactly [value], and the literal ends at the
    closing quote the code writes, whatever follows it; in particular two
    different values never give the same escaped text. *)
Theorem escapeSoql_literal :
  (forall value rest, soql_read (escapeSoql value ++ String squote rest) = Some (value, rest)) /\
  (forall a b, escapeSoql a = escapeSoql b -> a = b).
Proof.
  split; [exact soql_read_escape|].
  intros a b E.
  pose proof (soql_read_escape a EmptyString) as Ha.
  rewrite E, soql_read_escape in Ha. congruence.
Qed.

(** *** The instance URL *)

Lemma skip_slashes_spec l :
  exists n, l = (repeat slash n ++ skip_slashes l)%list /\
            match skip_slashes l with c :: _ => c <> slash | [] => True end.
Proof.
  induction l as [|c r IH]; simpl.
  - exists O; auto.
  - destruct (Ascii.eqb c slash) eqn:E.
    + apply Ascii.eqb_eq in E; subst. destruct IH as [n [H1 H2]].
      exists (S n); simpl; rewrite <- H1; auto.
    + exists O; simpl; split; [reflexivity|]. intro H; subst.
      rewrite Ascii.eqb_refl in E; discriminate.
Qed.

Lemma rstrip_spec v :
  (exists n, list_ascii_of_string v =
             (list_ascii_of_string (rstrip_slashes v) ++ repeat slash n)%list) /\
  (forall pre, list_ascii_of_string (rstrip_slashes v) <> (pre ++ [slash])%list).
Proof.
  unfold rstrip_slashes; rewrite list_ascii_of_string_of_list_ascii.
  destruct (skip_slashes_spec (rev (list_ascii_of_string v))) as [n [H1 H2]].
  split.
  - exists n. rewrite <- (rev_involutive (list_ascii_of_string v)) at 1.
    rewrite H1 at 1. rewrite rev_app_distr, rev_repeat. reflexivity.
  - intros pre E. apply (f_equal (@rev _)) in E. rewrite rev_involutive, rev_app_distr in E.
    simpl in E. rewrite E in H2. apply H2; reflexivity.
Qed.

Lemma skip_slashes_noslash l :
  match l with c :: _ => c <> slash | [] => True end -> skip_slashes l = l.
Proof.
  destruct l as [|c r]; simpl; [reflexivity|]. intro H.
  destruct (Ascii.eqb c slash) eqn:E; [apply Ascii.eqb_eq in E; contradiction|reflexivity].
Qed.

Lemma rstrip_idem v : rstrip_slashes (rstrip_slashes v) = rstrip_slashes v.
Proof.
  unfold rstrip_slashes at 1 2. rewrite list_ascii_of_string_of_list_ascii, rev_involutive.
  destruct (skip_slashes_spec (rev (list_ascii_of_string v))) as [_ [_ H2]].
  rewrite (skip_slashes_noslash _ H2). reflexivity.
Qed.

Lemma skip_slashes_repeat n : skip_slashes (repeat slash n) = [].
Proof. induction n; [reflexivity|]. exact IHn. Qed.

(** X2: when [sfInstance()] returns a URL [u], the variable was set and not
    empty, equals [u] followed by some slashes, [u] does not end in a slash,
    and stripping again changes nothing; so ["${instance}/services/..."]
    has exactly one slash there. *)
Theorem sfInstance_url_trailing env u :
  sfInstance_url env = Ok u ->
  exists v n, env = Some v /\ v <> "" /\
    list_ascii_of_string v = (list_ascii_of_string u ++ repeat slash n)%list /\
    (forall pre, list_ascii_of_string u <> (pre ++ [slash])%list) /\
    rstrip_slashes u = u.
Proof.
  unfold sfInstance_url; destruct env as [v|]; [|discriminate].
  destruct (String.eqb v "") eqn:E; [discriminate|]. intro H; injection H as <-.
  destruct (rstrip_spec v) as [[n Hn] Hl].
  exists v, n; repeat split; auto.
  - intro; subst; discriminate.
  - apply rstrip_idem.
Qed.

Lemma sfInstance_url_trailing_witness :
  exists v n, Some "https://acme.my.salesforce.com//" = Some v /\ v <> "" /\
    list_ascii_of_string v =
      (list_ascii_of_string "https://acme.my.salesforce.com" ++ repeat slash n)%list /\
    (forall pre, list_ascii_of_string "https://acme.my.salesforce.com" <> (pre ++ [slash])%list) /\
    rstrip_slashes "https://acme.my.salesforce.com" = "https://acme.my.salesforce.com".
Proof.
  apply (sfInstance_url_trailing (Some "https://acme.my.salesforce.com//")
           "https://acme.my.salesforce.com").
  reflexivity.
Defined.

(** X3: a [SALESFORCE_INSTANCE_URL] made only of slashes passes the
    [!instance] check and [sfInstance()] returns the empty string, so the
    request URLs become relative paths. *)
Theorem sfInstance_url_only_slashes n :
  (0 < n)%nat -> sfInstance_url (Some (string_of_list_ascii (repeat slash n))) = Ok "".
Proof.
  intro Hn; destruct n as [|n]; [lia|]. unfold sfInstance_url.
  assert (E : String.eqb (string_of_list_ascii (repeat slash (S n))) "" = false)
    by reflexivity.
  rewrite E. unfold rstrip_slashes.
  rewrite list_ascii_of_string_of_list_ascii, rev_repeat, skip_slashes_repeat. reflexivity.
Qed.

Lemma sfInstance_url_only_slashes_witness :
  sfInstance_url (Some (string_of_list_ascii (repeat slash 2))) = Ok "".
Proof. apply (sfInstance_url_only_slashes 2); lia. Defined.

(** *** [SalesforceRefreshService.authenticate] *)

Module RefreshServiceFacts.
Import RefreshService.

Lemma required_missing name v :
  env_missing v = true -> required name v = Err (plainError ("Missing env var: " ++ name)).
Proof. destruct v as [x|]; simpl; [intro H; rewrite H|]; reflexivity. Qed.

Lemma required_present name v :
  env_missing v = false -> exists x, v = Some x /\ required name v = Ok x.
Proof. destruct v as [x|]; simpl; [intro H; rewrite H; eauto|discriminate]. Qed.

(** X4: when the cache does not hold a token valid at [now] and a variable
    is unset or empty, [authenticate] rejects with the plain [Error] of the
    first getter that throws, in the order instance URL, client id, client
    secret, refresh token, and posts nothing. *)
Theorem authenticate_missing_env env now res s name :
  (forall c, tokenCache s = Some c -> expiresAt c - 30000 <= now) ->
  first_missing env = Some name ->
  authenticate env now res s = (Err (plainError ("Missing env var: " ++ name)), s).
Proof.
  intros Hc Hm. unfold authenticate.
  replace (match tokenCache s with Some c => now <? expiresAt c - 30000 | None => false end)
    with false by (destruct (tokenCache s) as [c|]; [symmetry; apply Z.ltb_ge, Hc|]; reflexivity).
  unfold first_missing in Hm; unfold instanceUrl.
  destruct (env_missing (SALESFORCE_INSTANCE_URL env)) eqn:E1.
  { rewrite required_missing by exact E1. injection Hm as <-; reflexivity. }
  destruct (required_present "SALESFORCE_INSTANCE_URL" _ E1) as [x1 [_ ->]].
  destruct (env_missing (SALESFORCE_CLIENT_ID env)) eqn:E2.
  { rewrite required_missing by exact E2. injection Hm as <-; reflexivity. }
  destruct (required_present "SALESFORCE_CLIENT_ID" _ E2) as [x2 [_ ->]].
  destruct (env_missing (SALESFORCE_CLIENT_SECRET env)) eqn:E3.
  { rewrite required_missing by exact E3. injection Hm as <-; reflexivity. }
  destruct (required_present "SALESFORCE_CLIENT_SECRET" _ E3) as [x3 [_ ->]].
  destruct (env_missing (SALESFORCE_REFRESH_TOKEN env)) eqn:E4.
  { rewrite required_missing by exact E4. injection Hm as <-; reflexivity. }
  discriminate.
Qed.

Lemma authenticate_missing_env_witness :
  authenticate (mkEnv (Some "https://acme.my.salesforce.com") (Some "") None (Some "refresh"))
    0 (TokenOk "tok" None) fresh_service =
  (Err (plainError ("Missing env var: " ++ "SALESFORCE_CLIENT_ID")), fresh_service).
Proof.
  apply authenticate_missing_env; [intros c E; discriminate | reflexivity].
Defined.

Lemma authenticate_fetch env now res s :
  (forall c, tokenCache s = Some c -> expiresAt c - 30000 <= now) ->
  first_missing env = None ->
  exists inst, SALESFORCE_INSTANCE_URL env = Some inst /\
  authenticate env now res s =
    (match res with
     | TokenFail r =>
         (Err (axiosError r),
          mkService (tokenCache s)
            (posted s ++ [(rstrip_slashes inst ++ "/services/oauth2/token")%string])%list
            (baseURL s) (authorization s))
     | TokenOk tok ei =>
         (Ok tt,
          mkService (Some (mkTokenCache tok (now + match ei with Some x => x | None => 600 end * 1000)))
            (posted s ++ [(rstrip_slashes inst ++ "/services/oauth2/token")%string])%list
            (Some (rstrip_slashes inst ++ "/")) (Some ("Bearer " ++ tok)))
     end).
Proof.
  intros Hc Hm. unfold authenticate.
  replace (match tokenCache s with Some c => now <? expiresAt c - 30000 | None => false end)
    with false by (destruct (tokenCache s) as [c|]; [symmetry; apply Z.ltb_ge, Hc|]; reflexivity).
  unfold first_missing in Hm; unfold instanceUrl.
  destruct (env_missing (SALESFORCE_INSTANCE_URL env)) eqn:E1; [discriminate|].
  destruct (required_present "SALESFORCE_INSTANCE_URL" _ E1) as [x1 [Hx1 ->]].
  destruct (env_missing (SALESFORCE_CLIENT_ID env)) eqn:E2; [discriminate|].
  destruct (required_present "SALESFORCE_CLIENT_ID" _ E2) as [x2 [_ ->]].
  destruct (env_missing (SALESFORCE_CLIENT_SECRET env)) eqn:E3; [discriminate|].
  destruct (required_present "SALESFORCE_CLIENT_SECRET" _ E3) as [x3 [_ ->]].
  destruct (env_missing (SALESFORCE_REFRESH_TOKEN env)) eqn:E4; [discriminate|].
  destruct (required_present "SALESFORCE_REFRESH_TOKEN" _ E4) as [x4 [_ ->]].
  exists x1; split; [exact Hx1|]. destruct res; reflexivity.
Qed.

(** X5: with every variable set, a token fetched at [t0] posts once to the
    token URL and sets the Bearer header; a later call at [t] reuses it with
    no request exactly while [t < t0 + expires_in * 1000 - 30000]
    ([expires_in] defaulting to 600), and posts again from then on; a token
    with [expires_in <= 30] is never reused. *)
Theorem token_cache_window env t0 t tok ei res s :
  (forall c, tokenCache s = Some c -> expiresAt c - 30000 <= t0) ->
  first_missing env = None ->
  let s1 := snd (authenticate env t0 (TokenOk tok ei) s) in
  let expiresIn := match ei with Some x => x | None => 600 end in
  posted s1 = (posted s ++ [token_url env])%list /\
  authorization s1 = Some ("Bearer " ++ tok) /\
  (t < t0 + expiresIn * 1000 - 30000 -> authenticate env t res s1 = (Ok tt, s1)) /\
  (t0 + expiresIn * 1000 - 30000 <= t ->
     posted (snd (authenticate env t res s1)) = (posted s1 ++ [token_url env])%list) /\
  (forall x, ei = Some x -> x <= 30 -> t0 <= t ->
     posted (snd (authenticate env t res s1)) = (posted s1 ++ [token_url env])%list).
Proof.
  intros Hc Hm s1 expiresIn.
  destruct (authenticate_fetch env t0 (TokenOk tok ei) s Hc Hm) as [inst [Hi E]].
  unfold token_url; rewrite Hi.
  subst s1; rewrite E; cbn [snd posted authorization tokenCache expiresAt].
  assert (Hlate : t0 + expiresIn * 1000 - 30000 <= t ->
     posted (snd (authenticate env t res
        (mkService (Some (mkTokenCache tok (t0 + expiresIn * 1000)))
           (posted s ++ [(rstrip_slashes inst ++ "/services/oauth2/token")%string])%list
           (Some (rstrip_slashes inst ++ "/")) (Some ("Bearer " ++ tok))))) =
     ((posted s ++ [(rstrip_slashes inst ++ "/services/oauth2/token")%string]) ++
      [(rstrip_slashes inst ++ "/services/oauth2/token")%string])%list).
  { intro Ht.
    destruct (authenticate_fetch env t res
        (mkService (Some (mkTokenCache tok (t0 + expiresIn * 1000)))
           (posted s ++ [(rstrip_slashes inst ++ "/services/oauth2/token")%string])%list
           (Some (rstrip_slashes inst ++ "/")) (Some ("Bearer " ++ tok)))) as [inst' [Hi' E']].
    - intros c Hc'; injection Hc' as <-; simpl; lia.
    - exact Hm.
    - rewrite E'. rewrite Hi in Hi'; injection Hi' as <-. destruct res; reflexivity. }
  split; [reflexivity|]. split; [reflexivity|]. split; [|split].
  - intro Ht. unfold authenticate at 1. cbn [tokenCache expiresAt].
    subst expiresIn. rewrite (proj2 (Z.ltb_lt _ _) Ht). reflexivity.
  - exact Hlate.
  - intros x Hx Hx30 Ht. apply Hlate. subst expiresIn; rewrite Hx. lia.
Qed.

Lemma token_cache_window_witness :
  let s1 := snd (authenticate sample_env 1000000 (TokenOk "tok" None) fresh_service) in
  posted s1 = [token_url sample_env] /\
  authorization s1 = Some ("Bearer " ++ "tok") /\
  (1569999 < 1000000 + 600 * 1000 - 30000 ->
     authenticate sample_env 1569999 (TokenOk "tok2" None) s1 = (Ok tt, s1)) /\
  (1000000 + 600 * 1000 - 30000 <= 1569999 ->
     posted (snd (authenticate sample_env 1569999 (TokenOk "tok2" None) s1)) =
     (posted s1 ++ [token_url sample_env])%list) /\
  (forall x, None = Some x -> x <= 30 -> 1000000 <= 1569999 ->
     posted (snd (authenticate sample_env 1569999 (TokenOk "tok2" None) s1)) =
     (posted s1 ++ [token_url sample_env])%list).
Proof.
  apply (token_cache_window sample_env 1000000 1569999 "tok" None (TokenOk "tok2" None)
           fresh_service); [intros c E; discriminate | reflexivity].
Defined.

(** X6: every error [authenticate] rejects with is unclassified (no
    [isHerhaalbaar], no [statusCode]): the getters throw a plain [Error] and
    the token POST goes through the global axios. *)
Theorem authenticate_errors_unclassified env now res s e s' :
  authenticate env now res s = (Err e, s') -> isHerhaalbaar e = None /\ statusCode e = None.
Proof.
  unfold authenticate, instanceUrl, required; cbv zeta.
  repeat destr_atomic; intro E; try discriminate; injection E as <- _;
    try (destruct r; split; reflexivity); auto.
Qed.

Lemma authenticate_errors_unclassified_witness :
  isHerhaalbaar (axiosError (RespHttp 400)) = None /\ statusCode (axiosError (RespHttp 400)) = None.
Proof.
  apply (authenticate_errors_unclassified sample_env 0 (TokenFail (RespHttp 400)) fresh_service
           (axiosError (RespHttp 400))
           (mkService None [token_url sample_env] None None)).
  reflexivity.
Defined.

End RefreshServiceFacts.

(** *** How the helpers classify their errors *)

Lemma errs_ok_ret {A} (a : A) : errs_ok (ret a).
Proof. intros st e st' E; discriminate. Qed.

Lemma errs_ok_throw {A} e : classified e -> errs_ok (@throw A e).
Proof. intros H st e' st' E; injection E as <- _; exact H. Qed.

Lemma errs_ok_bind {A B} (m : M A) (k : A -> M B) :
  errs_ok m -> (forall a, errs_ok (k a)) -> errs_ok (bind m k).
Proof.
  intros Hm Hk st e st'; unfold bind.
  destruct (m st) as [[a|e0] s1] eqn:E; [apply Hk|].
  intro H; injection H as <- _; exact (Hm _ _ _ E).
Qed.

Lemma errs_ok_try_catch {A} (m : M A) (h : jserr -> M A) :
  (forall e, errs_ok (h e)) -> errs_ok (try_catch m h).
Proof.
  intros Hh st e st'; unfold try_catch.
  destruct (m st) as [[a|e0] s1]; [discriminate|apply Hh].
Qed.

Lemma errs_ok_http {A} rq (k : resp -> St -> A * St) : errs_ok (http rq k).
Proof.
  intros st e st'; unfold http.
  destruct (match sched st with [] => RespOk | r :: _ => r end) as [| | |s|];
    try (intro E; injection E as <- _; left; reflexivity);
    match goal with |- context [k ?r ?s1] => destruct (k r s1) end; discriminate.
Qed.

Lemma errs_ok_for_each {A} (f : A -> M unit) l :
  (forall x, errs_ok (f x)) -> errs_ok (for_each f l).
Proof.
  intro Hf; induction l as [|x r IH]; simpl; [apply errs_ok_ret|].
  apply errs_ok_bind; auto.
Qed.

Lemma status_4xx s :
  (negb (s =? 0) && (400 <=? s) && (s <? 500))%bool = ((400 <=? s) && (s <? 500))%bool.
Proof. destruct (Z.eqb_spec s 0); [subst; reflexivity | reflexivity]. Qed.

Lemma errs_ok_sf_catch {A} ctx e : errs_ok (@sf_catch A ctx e).
Proof.
  intros st e' st' E. unfold sf_catch, throw in E.
  destruct (response_status e) as [s|].
  - rewrite status_4xx in E.
    destruct ((400 <=? s) && (s <? 500))%bool eqn:B;
      injection E as <- _; right; exists s;
      (split; [reflexivity | simpl; rewrite B; reflexivity]).
  - injection E as <- _; right; exists 500; split; reflexivity.
Qed.

Lemma errs_ok_authenticate : errs_ok authenticate.
Proof.
  intros st e st'; unfold authenticate.
  destruct (token_valid st); [discriminate|].
  destruct (negb (env_instance st)); [intro E; injection E as <- _; left; reflexivity|].
  apply errs_ok_http.
Qed.

Lemma errs_ok_sfInstance : errs_ok sfInstance.
Proof.
  intros st e st'; unfold sfInstance.
  destruct (env_instance st); [discriminate|intro E; injection E as <- _; left; reflexivity].
Qed.

Lemma classified_permanent msg s : 400 <= s < 500 -> classified (permanentError msg s).
Proof.
  intro H; right; exists s; split; [reflexivity|]; simpl.
  replace (400 <=? s) with true by (symmetry; apply Z.leb_le; lia).
  replace (s <? 500) with true by (symmetry; apply Z.ltb_lt; lia). reflexivity.
Qed.

Lemma classified_retryable msg : classified (retryableError msg 500).
Proof. right; exists 500; split; reflexivity. Qed.

Ltac errs_step :=
  match goal with
  | |- errs_ok (bind _ _) => apply errs_ok_bind; [|intro]
  | |- errs_ok (try_catch _ _) => apply errs_ok_try_catch; intro; apply errs_ok_sf_catch
  | |- errs_ok (ret _) => apply errs_ok_ret
  | |- errs_ok (throw (permanentError _ _)) => apply errs_ok_throw, classified_permanent; lia
  | |- errs_ok (throw (retryableError _ 500)) => apply errs_ok_throw, classified_retryable
  | |- errs_ok sfInstance => apply errs_ok_sfInstance
  | |- errs_ok authenticate => apply errs_ok_authenticate
  | |- errs_ok (for_each _ _) => apply errs_ok_for_each; intro
  | |- errs_ok (http _ _) => apply errs_ok_http
  | |- errs_ok (match ?x with _ => _ end) => destruct x
  | |- errs_ok (if ?b then _ else _) => destruct b
  | |- errs_ok (let (_, _) := ?p in _) => destruct p
  end.

Lemma errs_ok_decrement items oid : errs_ok (decrementStockForOrderItems items oid).
Proof.
  unfold decrementStockForOrderItems, decrement_item, findProductByExternalProductId,
    setProductStockById; repeat errs_step.
Qed.

Lemma errs_ok_lines osf oid items : errs_ok (upsertOrderLines osf oid items).
Proof. unfold upsertOrderLines, upsert_line; repeat errs_step. Qed.

(** X7: every error [handleMessage] rejects with (in both variants) is either
    unclassified or carries a [statusCode] [s] with [isHerhaalbaar = false]
    exactly when [400 <= s < 500]: the code's own 400, 404 and 409 errors,
    the retryable 500s and every error re-thrown by a [catch] block. *)
Theorem handle_errors_classified b m : errs_ok (handle_with b m).
Proof.
  unfold handle_with, upsertCustomerAndGetId, upsertOrder, query_order; repeat errs_step;
    try apply errs_ok_decrement; try apply errs_ok_lines.
Qed.

Lemma handle_errors_classified_witness :
  classified (permanentError ("Salesforce 4xx bij customer upsert: " ++
                              json_str "Request failed with status code") 401).
Proof.
  apply (handle_errors_classified false (order_msg "m1" "ORD-1" [mkItem "P1" 3 5 15])
           (store_P1 10 [RespHttp 401])
           (permanentError ("Salesforce 4xx bij customer upsert: " ++
                            json_str "Request failed with status code") 401)
           (snd (handleMessage (order_msg "m1" "ORD-1" [mkItem "P1" 3 5 15])
                               (store_P1 10 [RespHttp 401])))).
  vm_compute; reflexivity.
Defined.

(** *** A product the query does not find *)

(** X8: when the product query answers without a record,
    [findProductByExternalProductId] rejects with a retryable error with
    status 500: the permanent 404 it throws inside its [try] is caught by its
    own [catch], which sees no HTTP status. *)
Theorem findProduct_missing_retryable ext st :
  token_valid st = true -> env_instance st = true ->
  (forall s, hd RespOk (sched st) <> RespHttp s) -> hd RespOk (sched st) <> RespNet ->
  find_product ext (products st) = None ->
  exists e st', findProductByExternalProductId ext st = (Err e, st') /\
    isHerhaalbaar e = Some true /\ statusCode e = Some 500.
Proof.
  intros Ht He Hh Hn Hf.
  unfold findProductByExternalProductId, bind, try_catch, authenticate, sfInstance, http.
  rewrite Ht, He.
  destruct (sched st) as [|r rest]; simpl in Hh, Hn |- *.
  - cbn. rewrite Hf. unfold throw; cbn.
    do 2 eexists; split; [reflexivity | split; reflexivity].
  - destruct r as [| | |s|]; try (exfalso; eapply Hh; reflexivity);
      try (exfalso; apply Hn; reflexivity);
      cbn; rewrite ?Hf; unfold throw; cbn;
      (do 2 eexists; split; [reflexivity | split; reflexivity]).
Qed.

Lemma findProduct_missing_retryable_witness :
  exists e st', findProductByExternalProductId "P9" (store_P1 10 []) = (Err e, st') /\
    isHerhaalbaar e = Some true /\ statusCode e = Some 500.
Proof.
  apply findProduct_missing_retryable; try reflexivity; simpl; [intros s|]; discriminate.
Defined.

(** *** A decrement that fails after the order was created *)

(** X9: if [handleMessage] fails in the stock decrement of an order it has
    just created, the order stays in the store; on the next delivery of the
    message (no query missing a record) the order upsert reports
    [createdNew = false], no stock changes, and the message succeeds as soon
    as the two upserts do: the failed decrement is never attempted again. *)
Theorem decrement_failure_not_redone m o c st id cn st1 e st2 :
  is_order_event (event m) = true -> order (payload m) = Some o ->
  customer (payload m) = Some c ->
  upsert_phase c o st = (Ok (id, cn), st1) ->
  handleMessage m st = (Err e, st2) ->
  ~ In RespStale (sched st2) ->
  products (snd (handleMessage m st2)) = products st2 /\
  (forall id' cn' st3, upsert_phase c o st2 = (Ok (id', cn'), st3) ->
     handleMessage m st2 = (Ok tt, st3)).
Proof.
  intros Hev Ho Hc Hp E Hns.
  unfold handleMessage in *.
  rewrite (handle_with_phase false m o c st Hev Ho Hc), Hp in E.
  pose proof (upsert_phase_ok_exists c o st id cn st1 Hp) as Hex1.
  assert (Hex2 : find_order (o_id o) (orders st2) <> None).
  { destruct cn; cbn in E.
    - pose proof (decrement_orders (o_items o) (o_id o) st1) as Hd.
      unfold same_orders in Hd. rewrite E in Hd; simpl in Hd. rewrite Hd; exact Hex1.
    - discriminate. }
  rewrite (handle_with_phase false m o c st2 Hev Ho Hc).
  split.
  - pose proof (upsert_phase_products c o st2) as Hpp.
    destruct (upsert_phase c o st2) as [[[id' cn']|e'] st3] eqn:E3;
      unfold same_products in Hpp; simpl in Hpp |- *; [|exact Hpp].
    rewrite (upsert_phase_existing c o st2 id' cn' st3 Hex2 Hns E3); exact Hpp.
  - intros id' cn' st3 E3. rewrite E3.
    rewrite (upsert_phase_existing c o st2 id' cn' st3 Hex2 Hns E3). reflexivity.
Qed.

Lemma decrement_failure_not_redone_witness :
  let m := order_msg "m1" "ORD-1" [mkItem "P1" 3 5 15] in
  let st2 := snd (handleMessage m patch_fails_store) in
  products (snd (handleMessage m st2)) = products st2 /\
  stock_of "P1" st2 = Some 10 /\
  acts (consumer_step (consumer_step (loop0 [] patch_fails_store) (Some m))
                      (Some (set_retryCount m 1))) =
    [ASendQueue (set_retryCount m 1); AAck; AAck] /\
  stock_of "P1" (store (consumer_step (consumer_step (loop0 [] patch_fails_store) (Some m))
                                      (Some (set_retryCount m 1)))) = Some 10.
Proof.
  split; [|vm_compute; split; [reflexivity | split; reflexivity]].
  eapply (decrement_failure_not_redone (order_msg "m1" "ORD-1" [mkItem "P1" 3 5 15])
            (sample_order "ORD-1" [mkItem "P1" 3 5 15]) sample_customer patch_fails_store);
    [reflexivity | reflexivity | reflexivity | vm_compute; reflexivity
    | vm_compute; reflexivity | vm_compute; intros []].
Defined.

(** *** A failing token request *)

Lemma upsertCustomer_token_fail c st s rest :
  token_valid st = false -> env_instance st = true -> sched st = RespHttp s :: rest ->
  exists st', upsertCustomerAndGetId c st = (Err (axiosError (RespHttp s)), st').
Proof.
  intros Ht He Hs. unfold upsertCustomerAndGetId, bind, authenticate, http.
  rewrite Ht, He, Hs. cbn. eauto.
Qed.

Lemma customer_event_not_order ev :
  is_customer_event ev = true -> is_order_event ev = false.
Proof.
  unfold is_customer_event, is_order_event.
  destruct (String.eqb_spec ev CREATE_CUSTOMER) as [E|_]; [rewrite E; reflexivity|].
  destruct (String.eqb_spec ev UPDATE_CUSTOMER) as [E|_]; [rewrite E; reflexivity | discriminate].
Qed.

(** X10: when the token request is answered with any HTTP error status
    (400 and 401 included), the message is not rejected: [authenticate] runs
    before the helpers' [try] and its axios error is unclassified, so the loop
    requeues the message with [retryCount + 1], or dead-letters it once the
    retries are used up. *)
Theorem token_failure_retried b mr m c ls s rest :
  customer (payload m) = Some c ->
  (is_order_event (event m) = true /\ order (payload m) <> None \/
   is_customer_event (event m) = true) ->
  isMessageProcessed (messageId m) (ledger ls) = false ->
  token_valid (store ls) = false -> env_instance (store ls) = true ->
  sched (store ls) = RespHttp s :: rest ->
  acts (processMessage mr (handle_with b) ls (Some m)) =
  (acts ls ++
   (if rc_of m + 1 <? mr
    then [ASendQueue (set_retryCount m (rc_of m + 1)); AAck]
    else [ASendDLQ (dlqMessage m (dlqReason (axiosError (RespHttp s))) (clock ls)); AAck]))%list.
Proof.
  intros Hc Hev Hp Ht He Hs.
  destruct (upsertCustomer_token_fail c (store ls) s rest Ht He Hs) as [st' Hu].
  assert (Hh : handle_with b m (store ls) = (Err (axiosError (RespHttp s)), st')).
  { unfold handle_with. destruct Hev as [[Ho Hor] | Hcu].
    - rewrite Ho. destruct (order (payload m)) as [o|]; [|congruence].
      rewrite Hc. unfold bind at 1. rewrite Hu. reflexivity.
    - rewrite (customer_event_not_order _ Hcu), Hcu, Hc. unfold bind. rewrite Hu. reflexivity. }
  unfold processMessage. rewrite Hp, Hh. unfold rc_of.
  cbn [herhaalbaar axiosError isHerhaalbaar andb negb].
  destruct (_ <? mr); reflexivity.
Qed.

Lemma token_failure_retried_witness :
  acts (consumer_step (loop0 [] token_400_store)
          (Some (order_msg "m1" "ORD-1" [mkItem "P1" 3 5 15]))) =
    [ASendQueue (set_retryCount (order_msg "m1" "ORD-1" [mkItem "P1" 3 5 15]) 1); AAck] /\
  acts (processMessage maxRetries (handle_with false) (loop0 [] token_400_store)
          (Some (order_msg "m1" "ORD-1" [mkItem "P1" 3 5 15]))) =
  ([] ++ (if rc_of (order_msg "m1" "ORD-1" [mkItem "P1" 3 5 15]) + 1 <? maxRetries
          then [ASendQueue (set_retryCount (order_msg "m1" "ORD-1" [mkItem "P1" 3 5 15])
                   (rc_of (order_msg "m1" "ORD-1" [mkItem "P1" 3 5 15]) + 1)); AAck]
          else [ASendDLQ (dlqMessage (order_msg "m1" "ORD-1" [mkItem "P1" 3 5 15])
                   (dlqReason (axiosError (RespHttp 400))) (clock (loop0 [] token_400_store)));
                AAck]))%list.
Proof.
  split; [vm_compute; reflexivity|].
  apply (token_failure_retried false maxRetries (order_msg "m1" "ORD-1" [mkItem "P1" 3 5 15])
           sample_customer (loop0 [] token_400_store) 400 []);
    try reflexivity.
  left; split; [reflexivity | discriminate].
Defined.

(** *** Customer events *)

#[export] Instance same_customers_only_frame : FrameRel same_customers_only.
Proof.
  split; unfold same_customers_only; intros; simpl; [auto | | auto | auto].
  destruct H as (? & ? & ?), H0 as (? & ? & ?); repeat split; congruence.
Qed.

Lemma upsertCustomer_customers_only c : frame same_customers_only (upsertCustomerAndGetId c).
Proof.
  unfold upsertCustomerAndGetId; repeat frame_step; frame_close;
    unfold same_customers_only; simpl;
    repeat match goal with
    | H : fresh_id _ = _ |- _ => apply fresh_id_products in H; destruct H as (H1 & H2 & H3 & _)
    end; simpl; repeat split; congruence.
Qed.

(** X11: a CREATE_CUSTOMER or UPDATE_CUSTOMER message, whether it succeeds or
    fails, leaves the order, order line and product records as they were. *)
Theorem customer_event_only_customers b m st :
  is_customer_event (event m) = true ->
  same_customers_only st (snd (handle_with b m st)).
Proof.
  intro Hcu.
  unfold handle_with; rewrite (customer_event_not_order _ Hcu), Hcu.
  destruct (customer (payload m)) as [c|]; [|apply R_refl].
  revert st; apply frame_bind; [apply upsertCustomer_customers_only | intro; apply frame_ret].
Qed.

Lemma customer_event_only_customers_witness :
  same_customers_only (store_P1 10 []) (snd (handleMessage customer_msg (store_P1 10 []))).
Proof. apply (customer_event_only_customers false customer_msg (store_P1 10 [])); reflexivity. Defined.

(** *** Order names *)

#[export] Instance orders_inv_frame : FrameRel orders_inv.
Proof.
  split; unfold orders_inv, orders_ok; simpl; auto.
  intros rq st [H1 H2]; split; [exact H1|].
  destruct (sched st) as [|r l]; simpl in *; tauto.
Qed.

Lemma find_order_none_notin n os : find_order n os = None -> ~ In n (map ord_Name os).
Proof.
  induction os as [|x r IH]; simpl; [auto|].
  destruct (String.eqb (ord_Name x) n) eqn:E; [discriminate|].
  intros H [Hx | Hin]; [apply String.eqb_neq in E; exact (E Hx) | exact (IH H Hin)].
Qed.

Lemma ord_names_patch id t s c os :
  map ord_Name (map (fun o => if String.eqb (ord_Id o) id
                              then mkOrderRec (ord_Id o) (ord_Name o) t s c else o) os) =
  map ord_Name os.
Proof.
  induction os as [|o r IH]; simpl; [reflexivity|].
  rewrite IH; destruct (String.eqb (ord_Id o) id); reflexivity.
Qed.

Ltac close_orders_inv :=
  unfold orders_inv, orders_ok; simpl;
  repeat match goal with
  | H : fresh_id _ = _ |- _ =>
      let H1 := fresh in let H2 := fresh in
      pose proof H as H1; apply fresh_id_products in H1; apply fresh_id_sched in H;
      destruct H1 as (_ & H1 & _); destruct H as [H2 _]
  end;
  simpl; intros; try congruence.

Lemma upsertCustomer_orders_inv c : frame orders_inv (upsertCustomerAndGetId c).
Proof.
  unfold upsertCustomerAndGetId; repeat frame_step; frame_close; close_orders_inv;
    rewrite ?H1, ?H2; assumption.
Qed.

Lemma decrement_orders_inv items oid : frame orders_inv (decrementStockForOrderItems items oid).
Proof.
  unfold decrementStockForOrderItems, decrement_item, findProductByExternalProductId,
    setProductStockById.
  repeat frame_step; frame_close; close_orders_inv; assumption.
Qed.

Lemma upsertOrderLines_orders_inv osf oid items : frame orders_inv (upsertOrderLines osf oid items).
Proof.
  unfold upsertOrderLines, upsert_line; repeat frame_step; frame_close; close_orders_inv;
    rewrite ?H1, ?H2; assumption.
Qed.

Lemma upsertOrder_orders_inv n t s cid : frame orders_inv (upsertOrder n t s cid).
Proof.
  intros st [Hnd Hns]; unfold upsertOrder, query_order, orders_ok.
  crush_m.
  all: repeat split;
    try (simpl in Hns; tauto);
    first [ rewrite ord_names_patch; assumption
          | rewrite map_app; apply nodup_snoc; [assumption | apply find_order_none_notin; assumption] ].
Qed.

(** X12: as long as no query misses a record, [handleMessage] (both variants)
    keeps the Names of the order records unique: an order is only POSTed
    after the query by its Name found none. *)
Theorem handle_orders_unique b m st :
  orders_ok st -> orders_ok (snd (handle_with b m st)).
Proof.
  revert st. change (frame orders_inv (handle_with b m)).
  unfold handle_with.
  repeat (frame_step || apply upsertCustomer_orders_inv || apply upsertOrder_orders_inv
          || apply upsertOrderLines_orders_inv || apply decrement_orders_inv).
Qed.

Lemma handle_orders_unique_witness :
  orders_ok (snd (handleMessage (order_msg "m2" "ORD-2" [mkItem "P1" 1 5 5])
                   (snd (handleMessage (order_msg "m1" "ORD-1" [mkItem "P1" 3 5 15])
                                       (store_P1 10 []))))).
Proof.
  apply (handle_orders_unique false (order_msg "m2" "ORD-2" [mkItem "P1" 1 5 5])).
  vm_compute; split; [repeat constructor; simpl; tauto | tauto].
Defined.

(** *** An invalid item in the variant with order lines *)

Lemma for_each_lines_invalid osf oid items st :
  existsb invalid_item items = true ->
  exists e st', for_each (upsert_line osf oid) items st = (Err e, st').
Proof.
  revert st; induction items as [|it r IH]; intros st H; [discriminate|].
  simpl in H |- *. unfold bind.
  destruct (invalid_item it) eqn:Ei.
  - unfold upsert_line at 1; rewrite Ei; unfold throw; eauto.
  - destruct (upsert_line osf oid it st) as [[u|e] s1]; [apply IH; exact H | eauto].
Qed.

Lemma upsertOrderLines_invalid osf oid items st :
  existsb invalid_item items = true ->
  exists e st', upsertOrderLines osf oid items st = (Err e, st').
Proof.
  intro H; destruct items as [|it r]; [discriminate|].
  unfold upsertOrderLines, bind.
  destruct (authenticate st) as [[u|e] s1]; [|eauto].
  destruct (sfInstance s1) as [[v|e] s2]; [|eauto].
  apply for_each_lines_invalid; exact H.
Qed.

(** X13: in the consumer of [part_004], an order with an invalid item (empty
    product id or quantity <= 0) fails and changes no product's stock: the
    order-line step rejects it before the decrement, even for a new order. *)
Theorem lines_invalid_item_no_stock m o c st :
  is_order_event (event m) = true -> order (payload m) = Some o ->
  customer (payload m) = Some c ->
  existsb invalid_item (o_items o) = true ->
  (exists e, fst (handleMessage_lines m st) = Err e) /\
  products (snd (handleMessage_lines m st)) = products st.
Proof.
  intros Hev Ho Hc Hi. unfold handleMessage_lines.
  rewrite (handle_with_phase true m o c st Hev Ho Hc).
  pose proof (upsert_phase_products c o st) as Hp.
  destruct (upsert_phase c o st) as [[[osf cn]|e] st1]; unfold same_products in Hp;
    simpl in Hp |- *; [|eauto].
  unfold bind.
  pose proof (upsertOrderLines_products osf (o_id o) (o_items o) st1) as Hl.
  destruct (upsertOrderLines_invalid osf (o_id o) (o_items o) st1 Hi) as [e [st2 E]].
  rewrite E in Hl |- *; unfold same_products in Hl; simpl in Hl |- *.
  split; [eauto | congruence].
Qed.

(** A new order whose second item has quantity 0; [consumer.ts] still
    decrements the first item before it rejects the second. *)
Lemma lines_invalid_item_no_stock_witness :
  let m := order_msg "m1" "ORD-9" [mkItem "P1" 3 5 15; mkItem "P1" 0 5 0] in
  ((exists e, fst (handleMessage_lines m (store_P1 10 [])) = Err e) /\
   products (snd (handleMessage_lines m (store_P1 10 []))) = products (store_P1 10 [])) /\
  stock_of "P1" (snd (handleMessage m (store_P1 10 []))) = Some 7.
Proof.
  split; [|vm_compute; reflexivity].
  apply (lines_invalid_item_no_stock _ (sample_order "ORD-9" [mkItem "P1" 3 5 15; mkItem "P1" 0 5 0])
           sample_customer); reflexivity.
Defined.

(** *** The loop *)

(** X14: [processMessage] settles each delivery with exactly one of: an ack;
    a nack without requeue; a republish of the same message with
    [retryCount + 1 < maxRetries] at the back of the queue followed by an
    ack; a dead-letter message followed by an ack.  It never nacks with
    requeue, and nothing else is added to the queue. *)
Theorem processMessage_settles mr h ls d :
  let ls' := processMessage mr h ls d in
  (acts ls' = (acts ls ++ [AAck])%list /\ queue ls' = queue ls) \/
  (acts ls' = (acts ls ++ [ANack false])%list /\ queue ls' = queue ls) \/
  (exists m, d = Some m /\ rc_of m + 1 < mr /\
     acts ls' = (acts ls ++ [ASendQueue (set_retryCount m (rc_of m + 1)); AAck])%list /\
     queue ls' = (queue ls ++ [Some (set_retryCount m (rc_of m + 1))])%list) \/
  (exists o, acts ls' = (acts ls ++ [ASendDLQ o; AAck])%list /\ queue ls' = queue ls).
Proof.
  cbv zeta. unfold processMessage.
  destruct d as [m|]; [|right; left; split; reflexivity].
  destruct (isMessageProcessed (messageId m) (ledger ls)); [left; split; reflexivity|].
  destruct (h m (store ls)) as [[u|e] st']; [left; split; reflexivity|].
  destruct (herhaalbaar e) eqn:Hh; simpl.
  - destruct (match retryCount m with Some n => n | None => 0 end + 1 <? mr) eqn:Hr; simpl.
    + right; right; left. exists m. apply Z.ltb_lt in Hr. unfold rc_of. auto.
    + right; right; right. eexists; split; reflexivity.
  - right; left; split; reflexivity.
Qed.

Lemma potential_cons mr d q ls :
  queue ls = d :: q ->
  potential mr ls = (weight mr d + fold_right Nat.add 0%nat (map (weight mr) q))%nat.
Proof. intro H; unfold potential; rewrite H; reflexivity. Qed.

Lemma sum_app mr a b :
  fold_right Nat.add 0%nat (map (weight mr) (a ++ b)) =
  (fold_right Nat.add 0%nat (map (weight mr) a) + fold_right Nat.add 0%nat (map (weight mr) b))%nat.
Proof. induction a; simpl; lia. Qed.

Lemma step_decreases mr h ls ls' :
  step mr h ls = Some ls' -> (potential mr ls' < potential mr ls)%nat.
Proof.
  unfold step. destruct (queue ls) as [|d q] eqn:Hq; [discriminate|].
  intro E; injection E as <-.
  rewrite (potential_cons mr d q ls Hq).
  pose proof (processMessage_settles mr h (with_queue q ls) d) as H; cbv zeta in H.
  unfold potential. simpl queue in H.
  destruct H as [[_ H] | [[_ H] | [[m [-> [Hr [_ H]]]] | [o [_ H]]]]]; rewrite H;
    try (destruct d; simpl; lia).
  rewrite sum_app; simpl. unfold rc_of in *; simpl.
  lia.
Qed.

Lemma potential_zero mr ls : potential mr ls = 0%nat -> queue ls = [].
Proof.
  unfold potential; destruct (queue ls) as [|d q]; [auto|].
  simpl; destruct d; simpl; lia.
Qed.

Lemma run_drains mr h n : forall ls,
  (potential mr ls <= n)%nat -> queue (run mr h n ls) = [].
Proof.
  induction n as [|n IH]; intros ls Hp; simpl.
  - apply (potential_zero mr); lia.
  - destruct (step mr h ls) as [ls'|] eqn:E.
    + apply IH. pose proof (step_decreases mr h ls ls' E); lia.
    + unfold step in E; destruct (queue ls); [reflexivity | discriminate].
Qed.

Lemma weight_bound mr d :
  (forall m, d = Some m -> 0 <= rc_of m) -> (weight mr d <= Z.to_nat (Z.max 1 mr))%nat.
Proof.
  intro H; destruct d as [m|]; simpl; [|lia].
  specialize (H m eq_refl). lia.
Qed.

Lemma potential_bound mr ls :
  (forall m, In (Some m) (queue ls) -> 0 <= rc_of m) ->
  (potential mr ls <= length (queue ls) * Z.to_nat (Z.max 1 mr))%nat.
Proof.
  unfold potential; induction (queue ls) as [|d q IH]; intro H; simpl; [lia|].
  pose proof (weight_bound mr d (fun m E => H m (or_introl E))).
  specialize (IH (fun m Hi => H m (or_intror Hi))). lia.
Qed.

(** X15: whatever the handler does, the loop empties the queue: when every
    queued message has a [retryCount] >= 0 (or none), the queue is empty
    after [length queue * max 1 maxRetries] deliveries, republished copies
    included. *)
Theorem run_empties_queue mr h ls n :
  (forall m, In (Some m) (queue ls) -> 0 <= rc_of m) ->
  (length (queue ls) * Z.to_nat (Z.max 1 mr) <= n)%nat ->
  queue (run mr h n ls) = [].
Proof.
  intros H Hn; apply run_drains. pose proof (potential_bound mr ls H); lia.
Qed.

Lemma run_empties_queue_witness :
  queue (run maxRetries handleMessage 6
           (loop0 [Some (order_msg "m1" "ORD-1" [mkItem "P1" 3 5 15]); None]
                  (store_P1 10 (repeat RespNet 20)))) = [].
Proof.
  apply run_empties_queue; [|vm_compute; lia].
  intros m [E | [E | []]]; [injection E as <-; unfold rc_of; simpl; lia | discriminate].
Defined.
